(** * ThreadPool (threadpool.py): a small-step model and its properties

    The pool of [threadpool.py] is shared mutable state (a queue, two
    flags, two thread lists) touched by one client thread, which calls
    [run], [close] and [terminate], and by the worker threads, each of
    which executes [call].  The model below is an interleaving semantics:
    every method is cut into atomic steps, one per statement that reads or
    writes shared state, and a schedule (a list of actors) decides which
    thread moves next.  Line numbers in comments refer to
    [src/threadpool.py].

    Task functions and callbacks are modelled by their outcome (a return
    value or a raised exception); they are assumed not to touch the pool
    themselves. *)

From stdpp Require Import base numbers list.
From Stdlib Require Import ZArith Lia.

Local Open Scope Z_scope.

(** ** Python values, exceptions, call outcomes *)

Inductive pyval := PyNone | PyInt (z : Z).

(** The part of Python's exception hierarchy that matters for
    [except Exception]: the first three are subclasses of [Exception], the
    last three derive from [BaseException] only. *)
Inductive exc :=
  | ValueError | TypeError | ZeroDivisionError
  | SystemExit | KeyboardInterrupt | GeneratorExit.

Definition isinstance_Exception (e : exc) : bool :=
  match e with
  | ValueError | TypeError | ZeroDivisionError => true
  | SystemExit | KeyboardInterrupt | GeneratorExit => false
  end.

Inductive outcome (A : Type) :=
  | Returns (a : A)
  | Raises (e : exc).
Arguments Returns {A} a.
Arguments Raises {A} e.

(** ** Tasks and queue items *)

(** Line 51: [w = (func, args, callback,)]. *)
Record Task := mkTask {
  func : list pyval -> outcome pyval;
  arguments : list pyval;
  callback : option (bool -> pyval -> outcome pyval);
}.

(** What travels on the queue: a task tuple or the sentinel of line 17. *)
Inductive item :=
  | TaskItem (w : Task)
  | StopEvent.

Definition is_stop (x : item) : bool :=
  match x with StopEvent => true | TaskItem _ => false end.

Definition is_task (x : item) : bool :=
  match x with StopEvent => false | TaskItem _ => true end.

(** ** queue.Queue *)

(** [maxsize <= 0] means unbounded, as in the standard library. *)
Record Queue := mkQueue {
  maxsize : Z;
  queue : list item;
}.

Definition full (qu : Queue) : bool :=
  (0 <? maxsize qu) && (maxsize qu <=? Z.of_nat (length (queue qu))).

(** [put] appends at the tail; [None] stands for a caller that blocks. *)
Definition put (x : item) (qu : Queue) : option Queue :=
  if full qu then None
  else Some (mkQueue (maxsize qu) (queue qu ++ [x])).

(** [get] removes the head; [None] stands for a caller that blocks. *)
Definition get (qu : Queue) : option (item * Queue) :=
  match queue qu with
  | [] => None
  | x :: rest => Some (x, mkQueue (maxsize qu) rest)
  end.

(** [self.q.queue.clear()] *)
Definition clear (qu : Queue) : Queue := mkQueue (maxsize qu) [].

(** ** The pool object *)

(** Threads are named by their index in the thread table. *)
Abbreviation tid := nat (only parsing).

Record ThreadPool := mkPool {
  q : Queue;
  max_num : Z;
  cancel : bool;
  terminal : bool;
  generate_list : list tid;
  free_list : list tid;
}.

Definition set_q (qu : Queue) (p : ThreadPool) : ThreadPool :=
  mkPool qu (max_num p) (cancel p) (terminal p) (generate_list p) (free_list p).
Definition set_cancel (b : bool) (p : ThreadPool) : ThreadPool :=
  mkPool (q p) (max_num p) b (terminal p) (generate_list p) (free_list p).
Definition set_terminal (b : bool) (p : ThreadPool) : ThreadPool :=
  mkPool (q p) (max_num p) (cancel p) b (generate_list p) (free_list p).
Definition set_generate_list (l : list tid) (p : ThreadPool) : ThreadPool :=
  mkPool (q p) (max_num p) (cancel p) (terminal p) l (free_list p).
Definition set_free_list (l : list tid) (p : ThreadPool) : ThreadPool :=
  mkPool (q p) (max_num p) (cancel p) (terminal p) (generate_list p) l.

(** Lines 27-36.  [if max_task_num:] is false for [None] and for [0]; both
    give an unbounded queue.  No argument is validated. *)
Definition __init__ (max_num0 : Z) (max_task_num : option Z) : outcome ThreadPool :=
  let qu :=
    match max_task_num with
    | Some n => if n =? 0 then mkQueue 0 [] else mkQueue n []
    | None => mkQueue 0 []
    end in
  Returns (mkPool qu max_num0 false false [] []).

(** [list.remove(x)]: drops the first occurrence, [None] for [ValueError]. *)
Fixpoint list_remove (x : tid) (l : list tid) : option (list tid) :=
  match l with
  | [] => None
  | y :: rest =>
      if decide (x = y) then Some rest
      else match list_remove x rest with
           | Some rest' => Some (y :: rest')
           | None => None
           end
  end.

(** ** Observable events *)

Inductive event :=
  | EvSpawn (t : tid)                                  (* t.start() *)
  | EvPut (x : item)                                   (* q.put(x) *)
  | EvGet (t : tid) (x : item)                         (* q.get() by worker t *)
  | EvCallback (t : tid) (success : bool) (result : pyval)
  | EvRemove (t : tid)                                 (* generate_list.remove *)
  | EvClear (dropped : list item).                     (* q.queue.clear() *)

(** ** A worker: the method [call] *)

(** Lines 74-79: the task function inside its failure boundary. *)
Definition try_func (w : Task) : outcome (bool * pyval) :=
  match func w (arguments w) with
  | Returns result => Returns (true, result)
  | Raises e =>
      if isinstance_Exception e then Returns (false, PyNone) else Raises e
  end.

(** Lines 81-85: the callback, when there is one, inside its own
    boundary.  The boolean tells whether the callback was invoked. *)
Definition try_callback (w : Task) (success : bool) (result : pyval)
  : bool * outcome unit :=
  match callback w with
  | None => (false, Returns tt)
  | Some cb =>
      (true,
       match cb success result with
       | Returns _ => Returns tt
       | Raises e => if isinstance_Exception e then Returns tt else Raises e
       end)
  end.

(** Lines 73-85 as a whole: the callback invocations made, and whether the
    loop body goes on ([Returns]) or the exception leaves [call]. *)
Definition execute (t : tid) (w : Task) : list event * outcome unit :=
  match try_func w with
  | Raises e => ([], Raises e)
  | Returns (success, result) =>
      let '(invoked, r) := try_callback w success result in
      ((if invoked then [EvCallback t success result] else []), r)
  end.

(** Where a worker thread stands inside [call]. *)
Inductive wpc :=
  | Spawned                 (* started, before line 68 *)
  | FirstGet                (* line 70: event = self.q.get() *)
  | LoopTest (ev : item)    (* line 71: while event != StopEvent *)
  | Busy (w : Task)         (* lines 73-85 *)
  | IdleEnter               (* line 87 -> 122: free_list.append *)
  | IdleCheck               (* line 89: if self.terminal *)
  | IdleGet                 (* line 92: event = self.q.get() *)
  | IdleExit (ev : item)    (* line 126: free_list.remove *)
  | Finished                (* call returned *)
  | Died (e : exc).         (* an exception left call *)

(** One atomic step of worker [t] standing at [pc]; [None] when the worker
    is blocked or has ended. *)
Definition call (t : tid) (pc : wpc) (p : ThreadPool)
  : option (wpc * ThreadPool * list event) :=
  match pc with
  | Spawned =>
      Some (FirstGet, set_generate_list (generate_list p ++ [t]) p, [])
  | FirstGet =>
      match get (q p) with
      | None => None
      | Some (ev, qu) => Some (LoopTest ev, set_q qu p, [EvGet t ev])
      end
  | LoopTest (TaskItem w) => Some (Busy w, p, [])
  | LoopTest StopEvent =>
      (* line 94, the else branch of the while *)
      match list_remove t (generate_list p) with
      | Some l => Some (Finished, set_generate_list l p, [EvRemove t])
      | None => Some (Died ValueError, p, [])
      end
  | Busy w =>
      let '(evs, r) := execute t w in
      match r with
      | Returns _ => Some (IdleEnter, p, evs)
      | Raises e => Some (Died e, p, evs)
      end
  | IdleEnter =>
      Some (IdleCheck, set_free_list (free_list p ++ [t]) p, [])
  | IdleCheck =>
      if terminal p then Some (IdleExit StopEvent, p, [])
      else Some (IdleGet, p, [])
  | IdleGet =>
      match get (q p) with
      | None => None
      | Some (ev, qu) => Some (IdleExit ev, set_q qu p, [EvGet t ev])
      end
  | IdleExit ev =>
      match list_remove t (free_list p) with
      | Some l => Some (LoopTest ev, set_free_list l p, [])
      | None => Some (Died ValueError, p, [])
      end
  | Finished | Died _ => None
  end.

(** ** The client thread: [run], [close], [terminate] *)

Inductive api :=
  | Run (w : Task)
  | Close
  | Terminate.

(** Where the client thread stands. *)
Inductive cpc :=
  | Ready                   (* between two calls *)
  | RunCancel (w : Task)    (* line 46: if self.cancel *)
  | RunFree (w : Task)      (* line 49: len(self.free_list) == 0 *)
  | RunGen (w : Task)       (* line 49: len(self.generate_list) < self.max_num *)
  | RunSpawn (w : Task)     (* line 50: self.generate_thread() *)
  | RunPut (w : Task)       (* line 53: self.q.put(w) *)
  | CloseSet                (* line 100 *)
  | CloseCount              (* line 101 *)
  | CloseLoop (full_size : nat)   (* lines 102-104 *)
  | TermSet                 (* line 110 *)
  | TermLoop                (* line 112: while self.generate_list *)
  | TermPut                 (* line 113 *)
  | TermClear.              (* line 115 *)

Definition enter (a : api) : cpc :=
  match a with
  | Run w => RunCancel w
  | Close => CloseSet
  | Terminate => TermSet
  end.

(** Lines 56-61: a new thread, which has not yet run a line of [call]. *)
Definition generate_thread (workers : list wpc) : list wpc * tid :=
  (workers ++ [Spawned], length workers).

Record Config := mkConfig {
  pool : ThreadPool;
  workers : list wpc;
  ctrl : cpc;
  prog : list api;
}.

(** One atomic step of the client thread. *)
Definition client (c : Config) : option (Config * list event) :=
  let p := pool c in
  let go pc := Some (mkConfig p (workers c) pc (prog c), []) in
  match ctrl c with
  | Ready =>
      match prog c with
      | [] => None
      | a :: rest => Some (mkConfig p (workers c) (enter a) rest, [])
      end
  | RunCancel w => if cancel p then go Ready else go (RunFree w)
  | RunFree w =>
      if (length (free_list p) =? 0)%nat then go (RunGen w) else go (RunPut w)
  | RunGen w =>
      if Z.of_nat (length (generate_list p)) <? max_num p
      then go (RunSpawn w) else go (RunPut w)
  | RunSpawn w =>
      let '(ws, t) := generate_thread (workers c) in
      Some (mkConfig p ws (RunPut w) (prog c), [EvSpawn t])
  | RunPut w =>
      match put (TaskItem w) (q p) with
      | None => None
      | Some qu =>
          Some (mkConfig (set_q qu p) (workers c) Ready (prog c),
                [EvPut (TaskItem w)])
      end
  | CloseSet =>
      Some (mkConfig (set_cancel true p) (workers c) CloseCount (prog c), [])
  | CloseCount => go (CloseLoop (length (generate_list p) + 1)%nat)
  | CloseLoop O => go Ready
  | CloseLoop (S n) =>
      match put StopEvent (q p) with
      | None => None
      | Some qu =>
          Some (mkConfig (set_q qu p) (workers c) (CloseLoop n) (prog c),
                [EvPut StopEvent])
      end
  | TermSet =>
      Some (mkConfig (set_terminal true p) (workers c) TermLoop (prog c), [])
  | TermLoop =>
      match generate_list p with
      | [] => go TermClear
      | _ :: _ => go TermPut
      end
  | TermPut =>
      match put StopEvent (q p) with
      | None => None
      | Some qu =>
          Some (mkConfig (set_q qu p) (workers c) TermLoop (prog c),
                [EvPut StopEvent])
      end
  | TermClear =>
      Some (mkConfig (set_q (clear (q p)) p) (workers c) Ready (prog c),
            [EvClear (queue (q p))])
  end.

(** ** Interleaving *)

Inductive actor :=
  | Main
  | Worker (t : tid).

Definition step (a : actor) (c : Config) : option (Config * list event) :=
  match a with
  | Main => client c
  | Worker t =>
      match workers c !! t with
      | None => None
      | Some pc =>
          match call t pc (pool c) with
          | None => None
          | Some (pc', p', evs) =>
              Some (mkConfig p' (<[t := pc']> (workers c)) (ctrl c) (prog c),
                    evs)
          end
      end
  end.

(** Runs a schedule; [None] when it asks a blocked or ended thread to
    move. *)
Fixpoint exec (sched : list actor) (c : Config)
  : option (Config * list event) :=
  match sched with
  | [] => Some (c, [])
  | a :: rest =>
      match step a c with
      | None => None
      | Some (c1, evs) =>
          match exec rest c1 with
          | None => None
          | Some (c2, tr) => Some (c2, evs ++ tr)
          end
      end
  end.

(** A fresh pool and a client about to make the calls of [calls]. *)
Definition boot (p : ThreadPool) (calls : list api) : Config :=
  mkConfig p [] Ready calls.

Definition initial (max_num0 : Z) (max_task_num : option Z)
  (calls : list api) : option Config :=
  match __init__ max_num0 max_task_num with
  | Returns p => Some (boot p calls)
  | Raises _ => None
  end.

Definition reachable (c : Config) : Prop :=
  exists m k calls c0 sched tr,
    initial m k calls = Some c0 /\ exec sched c0 = Some (c, tr).

(** The client thread running alone for [n] steps. *)
Definition solo (n : nat) (c : Config) : option (Config * list event) :=
  exec (replicate n Main) c.

(** ** Classification of worker positions *)

(** Between line 68 and line 94 the worker is in [generate_list]. *)
Definition registered (pc : wpc) : bool :=
  match pc with
  | Spawned | Finished => false
  | _ => true
  end.

(** Inside the [with self.worker_state(...)] block the worker is in
    [free_list]. *)
Definition idle (pc : wpc) : bool :=
  match pc with
  | IdleCheck | IdleGet | IdleExit _ => true
  | _ => false
  end.



Definition is_stop_put (e : event) : bool :=
  match e with EvPut StopEvent => true | _ => false end.


(** How many [StopEvent]s were put on the queue. *)
Definition stop_puts (tr : list event) : nat :=
  length (List.filter is_stop_put tr).

(** The bookkeeping invariant: both lists are duplicate-free and hold
    exactly the workers whose position says so. *)
Definition books (gl fl : list tid) (ws : list wpc) : Prop :=
  NoDup gl /\
  NoDup fl /\
  (forall t, t ∈ gl <-> exists pc, ws !! t = Some pc /\ registered pc = true) /\
  (forall t, t ∈ fl <-> exists pc, ws !! t = Some pc /\ idle pc = true).

Definition wf (c : Config) : Prop :=
  books (generate_list (pool c)) (free_list (pool c)) (workers c).

(** The test of line 49. *)
Definition spawn_cond (p : ThreadPool) : bool :=
  (length (free_list p) =? 0)%nat &&
  (Z.of_nat (length (generate_list p)) <? max_num p).

(** Room on the queue for [n] more items. *)
Definition room (n : nat) (qu : Queue) : Prop :=
  maxsize qu <= 0 \/ Z.of_nat (length (queue qu) + n) <= maxsize qu.

(** ** Sample tasks *)

(** The task of the usage example (lines 136-141): returns [None], no
    callback. *)
Definition action (i : Z) : Task :=
  mkTask (fun _ => Returns PyNone) [PyInt i] None.

Definition quiet_callback (success : bool) (result : pyval) : outcome pyval :=
  Returns PyNone.

Definition noisy_callback (success : bool) (result : pyval) : outcome pyval :=
  Raises ValueError.

(** A task that divides by zero, with a callback that raises in turn. *)
Definition failing : Task :=
  mkTask (fun _ => Raises ZeroDivisionError) [] (Some noisy_callback).

(** A task that calls [sys.exit()]. *)
Definition exiting : Task :=
  mkTask (fun _ => Raises SystemExit) [] (Some quiet_callback).

(** A task that returns 7 and whose callback is interrupted from the
    keyboard. *)
Definition interrupted : Task :=
  mkTask (fun _ => Returns (PyInt 7)) []
         (Some (fun _ _ => Raises KeyboardInterrupt)).

Definition pool_of (m : Z) (k : Z) : ThreadPool :=
  mkPool (mkQueue k []) m false false [] [].

(** [l'] agrees with [l] except perhaps on [t], which it holds iff [b]. *)
Definition same_but (t : tid) (l l' : list tid) (b : bool) : Prop :=
  (t ∈ l' <-> b = true) /\ (forall t', t' <> t -> (t' ∈ l' <-> t' ∈ l)).

(** What holds throughout when [max_num <= 0]: line 50 is never reached. *)
Definition no_spawn (c : Config) : Prop :=
  max_num (pool c) <= 0 /\ workers c = [] /\ forall w, ctrl c <> RunSpawn w.


(** ** Graceful shutdown *)


(** The items taken off the queue, in the order they were taken. *)
Definition gots (tr : list event) : list item :=
  omap (fun e => match e with EvGet _ x => Some x | _ => None end) tr.


Definition is_run (a : api) : bool :=
  match a with Run _ => true | _ => false end.

(** Past the test of line 46. *)
Definition in_run (pc : cpc) : bool :=
  match pc with
  | RunFree _ | RunGen _ | RunSpawn _ | RunPut _ => true
  | _ => false
  end.





(** ** Immediate shutdown *)

(** Anywhere inside [run]. *)
Definition in_run_call (pc : cpc) : bool :=
  match pc with
  | RunCancel _ | RunFree _ | RunGen _ | RunSpawn _ | RunPut _ => true
  | _ => false
  end.

(** No task is on the queue and none is on its way. *)
Definition quiescent (c : Config) : Prop :=
  existsb is_run (prog c) = false /\
  in_run_call (ctrl c) = false /\
  forallb is_stop (queue (q (pool c))) = true.

(** The stages of one [terminate] call, the one after which the calls
    [rest] remain: not yet called, at line 110, in lines 112-115, returned,
    and left behind. *)
Definition terminating (rest : list api) (c : Config) : Prop :=
  (ctrl c = Ready /\ prog c = Terminate :: rest) \/
  (prog c = rest /\ ctrl c = TermSet) \/
  (prog c = rest /\ terminal (pool c) = true /\
   (ctrl c = TermLoop \/ ctrl c = TermPut \/ ctrl c = TermClear)) \/
  (prog c = rest /\ terminal (pool c) = true /\ ctrl c = Ready /\
   queue (q (pool c)) = []) \/
  (length (prog c) < length rest)%nat.

(** ** Counting along a trace *)

Definition is_spawn (e : event) : bool :=
  match e with EvSpawn _ => true | _ => false end.

Definition is_callback (e : event) : bool :=
  match e with EvCallback _ _ _ => true | _ => false end.

Definition is_task_get (e : event) : bool :=
  match e with EvGet _ (TaskItem _) => true | _ => false end.

(** How many threads were started. *)
Definition spawns (tr : list event) : nat := length (List.filter is_spawn tr).

(** How many callbacks were invoked. *)
Definition callbacks (tr : list event) : nat :=
  length (List.filter is_callback tr).

(** How many tasks were taken off the queue. *)
Definition task_gets (tr : list event) : nat :=
  length (List.filter is_task_get tr).

(** The items put on the queue, in order. *)
Definition puts (tr : list event) : list item :=
  omap (fun e => match e with EvPut x => Some x | _ => None end) tr.

(** The items that left the queue, in order: taken by a worker, or
    discarded by [clear]. *)
Definition leaving (tr : list event) : list item :=
  concat (map (fun e => match e with
                        | EvGet _ x => [x]
                        | EvClear l => l
                        | _ => []
                        end) tr).

(** The [run] calls in a list of calls. *)
Definition count_runs (calls : list api) : nat :=
  length (List.filter is_run calls).

(** 1 while the client is inside a [run] call that has not yet passed
    line 50. *)
Definition may_spawn (pc : cpc) : nat :=
  match pc with
  | RunCancel _ | RunFree _ | RunGen _ | RunSpawn _ => 1
  | _ => 0
  end.

(** 1 for a worker that holds a task it has not finished. *)
Definition holding (pc : wpc) : nat :=
  match pc with
  | LoopTest (TaskItem _) | IdleExit (TaskItem _) | Busy _ => 1
  | _ => 0
  end.

Definition in_hand (ws : list wpc) : nat := sum_list_with holding ws.

(** The task leaves [call] running: neither its function nor its callback
    raises outside [Exception]. *)
Definition benign (t : tid) (w : Task) : Prop :=
  snd (execute t w) = Returns tt.

(** The events of a worker that runs the tasks [ws] one after the other,
    taking each one off the queue first, and then takes a [StopEvent]. *)
Fixpoint drain_trace (t : tid) (ws : list Task) : list event :=
  match ws with
  | [] => [EvGet t StopEvent; EvRemove t]
  | w :: rest => EvGet t (TaskItem w) :: fst (execute t w) ++ drain_trace t rest
  end.


(** The items worker [t] took off the queue, in order. *)
Definition gots_of (t : tid) (tr : list event) : list item :=
  omap (fun e => match e with
                 | EvGet t' x => if decide (t' = t) then Some x else None
                 | _ => None
                 end) tr.

(** A [StopEvent], if any, is the last item. *)
Fixpoint stop_only_last (l : list item) : bool :=
  match l with
  | [] => true
  | TaskItem _ :: rest => stop_only_last rest
  | StopEvent :: rest => match rest with [] => true | _ :: _ => false end
  end.

(** Positions from which a worker never reaches a [get] again. *)
Definition done_getting (pc : wpc) : bool :=
  match pc with
  | LoopTest StopEvent | IdleExit StopEvent | Finished | Died _ => true
  | _ => false
  end.

(** ** One thread serving task after task *)

(** What serving one task adds to the trace: the client puts it, the
    worker takes it and runs it. *)
Definition serve_trace (t : tid) (w : Task) : list event :=
  [EvPut (TaskItem w); EvGet t (TaskItem w)] ++ fst (execute t w).

(** The pool at rest with its one worker waiting in the [get] of line 92. *)
Definition waiting (m : Z) (calls : list api) : Config :=
  mkConfig (mkPool (mkQueue 0 []) m false false [0%nat] [0%nat])
           [IdleGet] Ready calls.

(** The schedule in which every task is finished before the next [run]:
    the first [run] and its task, [n] further rounds, then [close] and the
    worker's exit. *)
Definition reuse_schedule (n : nat) : list actor :=
  (replicate 6 Main ++ replicate 6 (Worker 0%nat)) ++
  concat (replicate n (replicate 4 Main ++ replicate 6 (Worker 0%nat))) ++
  (replicate 6 Main ++ replicate 3 (Worker 0%nat)).

Definition reuse_trace (w : Task) (ws : list Task) : list event :=
  (EvSpawn 0 :: serve_trace 0 w) ++
  concat (map (serve_trace 0) ws) ++
  [EvPut StopEvent; EvPut StopEvent; EvGet 0 StopEvent; EvRemove 0].

(** ** The state a line of the client reads *)

Definition is_worker (a : actor) : bool :=
  match a with Worker _ => true | Main => false end.

Definition is_main (a : actor) : bool :=
  match a with Main => true | Worker _ => false end.

(** The configuration in which the client thread, along [sched], takes its
    first step from a control point satisfying [line]: what that line
    reads is the pool of this configuration. *)
Fixpoint at_line (line : cpc -> bool) (sched : list actor) (c : Config)
  : option Config :=
  match sched with
  | [] => None
  | a :: rest =>
      if is_main a && line (ctrl c) then Some c
      else match step a c with
           | Some (c1, _) => at_line line rest c1
           | None => None
           end
  end.

(** Line 49, first operand: [len(self.free_list) == 0]. *)
Definition reads_free_list (pc : cpc) : bool :=
  match pc with RunFree _ => true | _ => false end.

(** Line 49, second operand: [len(self.generate_list) < self.max_num]. *)
Definition reads_generate_list (pc : cpc) : bool :=
  match pc with RunGen _ => true | _ => false end.

(** Line 101: [full_size = len(self.generate_list) + 1]. *)
Definition counts_generate_list (pc : cpc) : bool :=
  match pc with CloseCount => true | _ => false end.

(** The control points of the call [a]. *)
Definition inside (a : api) (pc : cpc) : Prop :=
  match a, pc with
  | Run w, (RunCancel w' | RunFree w' | RunGen w' | RunSpawn w' | RunPut w') =>
      w' = w
  | Close, (CloseSet | CloseCount | CloseLoop _) => True
  | Terminate, (TermSet | TermLoop | TermPut | TermClear) => True
  | _, _ => False
  end.

(** The stages of the call [a] after which the calls [rest] remain: not
    yet made, in progress or just returned, and left behind. *)
Definition during (a : api) (rest : list api) (c : Config) : Prop :=
  (ctrl c = Ready /\ prog c = a :: rest) \/
  (prog c = rest /\ (ctrl c = Ready \/ inside a (ctrl c))) \/
  (length (prog c) < length rest)%nat.

(** ** What a worker has done *)










(** * Lemmas *)

Section ListRemove.

Lemma list_remove_None x l : list_remove x l = None <-> x ∉ l.
Proof.
  induction l as [|y l IH]; simpl.
  - split; [intros _; apply not_elem_of_nil | done].
  - destruct (decide (x = y)) as [->|Hne].
    + split; [done | intros H; exfalso; apply H; left].
    + destruct (list_remove x l) eqn:E.
      * split; [done | intros H; exfalso].
        assert (x ∉ l) as Hn by (intros ?; apply H; by right).
        apply IH in Hn. done.
      * split; [| done]. intros _ [->|Hin]%elem_of_cons; [done |].
        by apply IH in Hin.
Qed.

Lemma list_remove_Some x l l' :
  list_remove x l = Some l' -> NoDup l ->
  NoDup l' /\ forall y, y ∈ l' <-> y ∈ l /\ y <> x.
Proof.
  revert l'. induction l as [|y l IH]; simpl; intros l' H Hnd; [done |].
  apply NoDup_cons in Hnd as [Hy Hnd].
  destruct (decide (x = y)) as [->|Hne].
  - injection H as <-. split; [done |]. intros z. rewrite elem_of_cons.
    split; [intros Hz; split; [by right | by intros ->] | by intros [[->|?] ?]].
  - destruct (list_remove x l) as [r|] eqn:E; [| done].
    injection H as <-. destruct (IH r eq_refl Hnd) as [Hr Hmem]. split.
    + apply NoDup_cons. split; [| done]. rewrite Hmem. tauto.
    + intros z. rewrite !elem_of_cons, Hmem. split.
      * intros [->|[? ?]]; [split; [by left | congruence] | split; [by right | done]].
      * intros [[->|?] ?]; [by left | by right].
Qed.

Lemma list_remove_elem x l : x ∈ l -> exists l', list_remove x l = Some l'.
Proof.
  intros Hin. destruct (list_remove x l) as [l'|] eqn:E; [by exists l' |].
  by apply list_remove_None in E.
Qed.

End ListRemove.

Section Bookkeeping.

Lemma books_spawn gl fl ws : books gl fl ws -> books gl fl (ws ++ [Spawned]).
Proof.
  intros (Hg & Hf & Hgl & Hfl). repeat split; try done.
  - intros [pc [Hpc Hr]]%Hgl. exists pc. split; [| done].
    by apply lookup_app_l_Some.
  - intros [pc [Hpc Hr]]. apply Hgl.
    apply lookup_app_Some in Hpc as [Hpc|[_ Hpc]]; [by exists pc |].
    apply list_lookup_singleton_Some in Hpc as [_ <-]. done.
  - intros [pc [Hpc Hr]]%Hfl. exists pc. split; [| done].
    by apply lookup_app_l_Some.
  - intros [pc [Hpc Hr]]. apply Hfl.
    apply lookup_app_Some in Hpc as [Hpc|[_ Hpc]]; [by exists pc |].
    apply list_lookup_singleton_Some in Hpc as [_ <-]. done.
Qed.

Lemma books_move gl fl ws t pc pc' gl' fl' :
  books gl fl ws -> ws !! t = Some pc ->
  NoDup gl' -> NoDup fl' ->
  same_but t gl gl' (registered pc') ->
  same_but t fl fl' (idle pc') ->
  books gl' fl' (<[t := pc']> ws).
Proof.
  intros (Hg & Hf & Hgl & Hfl) Ht Hg' Hf' [Hgt Hgo] [Hft Hfo].
  assert (t < length ws)%nat as Hlt by (by eapply lookup_lt_Some).
  repeat split; try done.
  - intros Hin. destruct (decide (t0 = t)) as [->|Hne].
    + exists pc'. split; [by apply list_lookup_insert_eq | by apply Hgt].
    + apply Hgo, Hgl in Hin as [pc0 [? ?]]; [| done]. exists pc0.
      by rewrite list_lookup_insert_ne.
  - intros [pc0 [Hpc0 Hr]]. destruct (decide (t0 = t)) as [->|Hne].
    + rewrite list_lookup_insert_eq in Hpc0 by done. apply Hgt. congruence.
    + rewrite list_lookup_insert_ne in Hpc0 by done.
      apply Hgo; [done |]. apply Hgl. by exists pc0.
  - intros Hin. destruct (decide (t0 = t)) as [->|Hne].
    + exists pc'. split; [by apply list_lookup_insert_eq | by apply Hft].
    + apply Hfo, Hfl in Hin as [pc0 [? ?]]; [| done]. exists pc0.
      by rewrite list_lookup_insert_ne.
  - intros [pc0 [Hpc0 Hr]]. destruct (decide (t0 = t)) as [->|Hne].
    + rewrite list_lookup_insert_eq in Hpc0 by done. apply Hft. congruence.
    + rewrite list_lookup_insert_ne in Hpc0 by done.
      apply Hfo; [done |]. apply Hfl. by exists pc0.
Qed.

Lemma books_in_gl gl fl ws t pc :
  books gl fl ws -> ws !! t = Some pc -> (t ∈ gl <-> registered pc = true).
Proof.
  intros (_ & _ & Hgl & _) Ht. rewrite Hgl. split.
  - intros [pc0 [? ?]]. by simplify_eq.
  - intros ?. by exists pc.
Qed.

Lemma books_in_fl gl fl ws t pc :
  books gl fl ws -> ws !! t = Some pc -> (t ∈ fl <-> idle pc = true).
Proof.
  intros (_ & _ & _ & Hfl) Ht. rewrite Hfl. split.
  - intros [pc0 [? ?]]. by simplify_eq.
  - intros ?. by exists pc.
Qed.

Lemma same_but_snoc (l : list tid) t : t ∉ l -> same_but t l (l ++ [t]) true.
Proof.
  intros Hn. split.
  - split; [done |]. intros _. apply elem_of_app. right. by apply list_elem_of_singleton.
  - intros t' Hne. rewrite elem_of_app, list_elem_of_singleton. tauto.
Qed.

Lemma same_but_keep (l : list tid) t b : (t ∈ l <-> b = true) -> same_but t l l b.
Proof. intros H. split; [done |]. tauto. Qed.

Lemma same_but_remove (l l' : list tid) t :
  NoDup l -> list_remove t l = Some l' -> same_but t l l' false.
Proof.
  intros Hnd Hr. destruct (list_remove_Some _ _ _ Hr Hnd) as [_ Hm]. split.
  - rewrite Hm. split; [tauto | done].
  - intros t' Hne. rewrite Hm. tauto.
Qed.

End Bookkeeping.

Section Preservation.

Lemma wf_client c c' evs : wf c -> client c = Some (c', evs) -> wf c'.
Proof.
  unfold wf, client. intros Hwf H.
  destruct (ctrl c) as [|w|w|w|w|w| | |[|n]| | | |]; simpl in H;
    repeat match type of H with
      | match ?x with _ => _ end = _ => destruct x eqn:?; simpl in H
      end;
    simplify_eq; simpl; first [assumption | by apply books_spawn | congruence].
Qed.

Lemma wf_call c t pc pc' p' evs :
  wf c -> workers c !! t = Some pc -> call t pc (pool c) = Some (pc', p', evs) ->
  books (generate_list p') (free_list p') (<[t := pc']> (workers c)).
Proof.
  unfold wf. intros Hwf Ht H.
  pose proof (books_in_gl _ _ _ _ _ Hwf Ht) as Hg.
  pose proof (books_in_fl _ _ _ _ _ Hwf Ht) as Hf.
  pose proof Hwf as (Hndg & Hndf & _ & _).
  destruct pc as [| |[w|]|w| | | |ev| |e]; simpl in H, Hg, Hf;
    repeat match type of H with
      | match ?x with _ => _ end = _ => destruct x eqn:?; simpl in H
      | (let '(_, _) := ?x in _) = _ => destruct x eqn:?; simpl in H
      end;
    simplify_eq; simpl;
    try (eapply books_move; [exact Hwf | exact Ht | try done ..];
         try (apply same_but_keep; simpl; tauto)).
  - (* line 68 *)
    apply NoDup_app. split_and!; [done | | apply NoDup_singleton].
    intros x Hx ->%list_elem_of_singleton. apply Hg in Hx. done.
  - apply same_but_snoc. intros Hx. apply Hg in Hx. done.
  - (* line 94 *)
    by eapply list_remove_Some.
  - by eapply same_but_remove.
  - (* line 122 *)
    apply NoDup_app. split_and!; [done | | apply NoDup_singleton].
    intros x Hx ->%list_elem_of_singleton. apply Hf in Hx. done.
  - apply same_but_snoc. intros Hx. apply Hf in Hx. done.
  - (* line 126 *)
    by eapply list_remove_Some.
  - by eapply same_but_remove.
  - (* remove cannot raise: the worker is listed *)
    exfalso. match goal with E : list_remove _ _ = None |- _ =>
      apply list_remove_None in E; apply E, Hf end. done.
Qed.

Lemma wf_step a c c' evs : wf c -> step a c = Some (c', evs) -> wf c'.
Proof.
  intros Hwf H. destruct a as [|t]; simpl in H.
  - by eapply wf_client.
  - destruct (workers c !! t) as [pc|] eqn:Ht; [| done].
    destruct (call t pc (pool c)) as [[[pc' p'] evs']|] eqn:Hc; [| done].
    simplify_eq. unfold wf; simpl. by eapply wf_call.
Qed.

Lemma exec_app s1 s2 c :
  exec (s1 ++ s2) c =
  match exec s1 c with
  | None => None
  | Some (c1, tr1) =>
      match exec s2 c1 with
      | None => None
      | Some (c2, tr2) => Some (c2, tr1 ++ tr2)
      end
  end.
Proof.
  revert c. induction s1 as [|a s1 IH]; intros c; simpl.
  - by destruct (exec s2 c) as [[? ?]|].
  - destruct (step a c) as [[c1 evs]|]; [| done]. rewrite IH.
    destruct (exec s1 c1) as [[c2 tr1]|]; [| done].
    destruct (exec s2 c2) as [[c3 tr2]|]; [| done].
    by rewrite app_assoc.
Qed.

(** Invariants are established by induction along the schedule. *)
Lemma exec_invariant (P : Config -> Prop) :
  (forall a c c' evs, P c -> step a c = Some (c', evs) -> P c') ->
  forall sched c c' tr, P c -> exec sched c = Some (c', tr) -> P c'.
Proof.
  intros Hstep sched. induction sched as [|a sched IH]; intros c c' tr HP H; simpl in H.
  - by simplify_eq.
  - destruct (step a c) as [[c1 evs]|] eqn:Hs; [| done].
    destruct (exec sched c1) as [[c2 tr2]|] eqn:He; [| done].
    simplify_eq. eapply IH; [| exact He]. by eapply Hstep.
Qed.

Lemma wf_boot p calls :
  generate_list p = [] -> free_list p = [] -> wf (boot p calls).
Proof.
  intros Hg Hf. unfold wf, boot, books; simpl. rewrite Hg, Hf.
  split_and!; try apply NoDup_nil_2.
  - intros t. split; [by intros ?%elem_of_nil | by intros (? & ? & ?)].
  - intros t. split; [by intros ?%elem_of_nil | by intros (? & ? & ?)].
Qed.

Lemma wf_reachable c : reachable c -> wf c.
Proof.
  intros (m & k & calls & c0 & sched & tr & Hi & He).
  eapply (exec_invariant wf); [apply wf_step | | exact He].
  unfold initial, __init__ in Hi. simplify_eq. by apply wf_boot.
Qed.

End Preservation.

(** * Construction *)

Section Construction.

Lemma init_returns m k :
  __init__ m k =
  Returns (pool_of m (match k with Some n => n | None => 0 end)).
Proof.
  unfold __init__, pool_of. destruct k as [n|]; [| done].
  destruct (Z.eqb_spec n 0) as [->|]; done.
Qed.

Lemma initial_boot m k calls :
  initial m k calls =
  Some (boot (pool_of m (match k with Some n => n | None => 0 end)) calls).
Proof. unfold initial. by rewrite init_returns. Qed.

Lemma no_spawn_step a c c' evs :
  no_spawn c -> step a c = Some (c', evs) -> no_spawn c'.
Proof.
  intros (Hm & Hw & Hc) H. destruct a as [|t]; simpl in H.
  - unfold client in H.
    destruct (ctrl c) as [|w|w|w|w|w| | |[|n]| | | |] eqn:Hpc; simpl in H;
      try (exfalso; by eapply Hc);
      repeat match type of H with
        | match ?x with _ => _ end = _ => destruct x eqn:?; simpl in H
        end;
      simplify_eq; unfold no_spawn; simpl; split_and!; try done;
      try (by destruct a).
    exfalso. match goal with E : (_ <? _) = true |- _ => apply Z.ltb_lt in E end. lia.
  - rewrite Hw in H. done.
Qed.

End Construction.

(** C9 (counterexample).  Construction with [max_num = 0], and with
    [max_num = -3], does not fail: it returns a pool. *)
Lemma init_accepts_nonpositive :
  __init__ 0 None = Returns (pool_of 0 0) /\
  __init__ (-3) (Some 2) = Returns (pool_of (-3) 2).
Proof. split; reflexivity. Qed.

(** * Executing one task (lines 73-85) *)

(** C5 (counterexample).  A task whose function raises [SystemExit] is not
    turned into [(False, None)]: the exception passes the
    [except Exception] clause, the callback is not invoked and the worker
    leaves [call]. *)
Lemma systemexit_leaves_call :
  func exiting (arguments exiting) = Raises SystemExit /\
  try_func exiting = Raises SystemExit /\
  execute 0 exiting = ([], Raises SystemExit) /\
  call 0 (Busy exiting) (pool_of 1 0) =
    Some (Died SystemExit, pool_of 1 0, []).
Proof. repeat split. Qed.

(** C5 (amended).  For every task a worker executes: if the function
    raises an instance of [Exception], the worker records
    [success = False] and [result = None] and nothing propagates; whenever
    the function returned or raised such an exception and a callback was
    supplied, the callback is invoked exactly once with
    [(success, result)], and is not invoked when none was supplied; and an
    instance of [Exception] raised by the callback is discarded, the worker
    going on to line 87 with the pool untouched.  An exception outside
    [Exception] is not caught: raised by the function, it skips the callback
    and ends the worker; raised by the callback, it ends the worker after
    that one invocation; in both cases the pool is left as it was and the
    worker never takes another step. *)
Theorem execute_swallows_exceptions t w p :
  (forall e, func w (arguments w) = Raises e ->
             isinstance_Exception e = true ->
             try_func w = Returns (false, PyNone)) /\
  (forall r, func w (arguments w) = Returns r ->
             try_func w = Returns (true, r)) /\
  (forall success result,
      try_func w = Returns (success, result) ->
      fst (execute t w) =
        match callback w with
        | Some _ => [EvCallback t success result]
        | None => []
        end) /\
  (forall success result,
      try_func w = Returns (success, result) ->
      match callback w with
      | Some cb =>
          match cb success result with
          | Raises e => isinstance_Exception e = true
          | Returns _ => True
          end
      | None => True
      end ->
      call t (Busy w) p = Some (IdleEnter, p, fst (execute t w))) /\
  (forall e, func w (arguments w) = Raises e ->
             isinstance_Exception e = false ->
             try_func w = Raises e /\
             call t (Busy w) p = Some (Died e, p, [])) /\
  (forall success result cb e,
      try_func w = Returns (success, result) ->
      callback w = Some cb -> cb success result = Raises e ->
      isinstance_Exception e = false ->
      call t (Busy w) p = Some (Died e, p, [EvCallback t success result])) /\
  (forall e, call t (Died e) p = None).
Proof.
  split_and!.
  - intros e He Hi. unfold try_func. by rewrite He, Hi.
  - intros r Hr. unfold try_func. by rewrite Hr.
  - intros success result Hf. unfold execute, try_callback. rewrite Hf.
    by destruct (callback w).
  - intros success result Hf Hcb. simpl. unfold execute, try_callback.
    rewrite Hf. destruct (callback w) as [cb|]; [| done].
    destruct (cb success result) as [v|e]; [done |]. by rewrite Hcb.
  - intros e He Hi.
    assert (try_func w = Raises e) as Hf
      by (unfold try_func; by rewrite He, Hi).
    split; [done |]. simpl. unfold execute. by rewrite Hf.
  - intros success result cb e Hf Hcb He Hi. simpl.
    unfold execute, try_callback. by rewrite Hf, Hcb, He, Hi.
  - done.
Qed.

Lemma execute_swallows_exceptions_witness :
  (try_func failing = Returns (false, PyNone) /\
   fst (execute 3 failing) = [EvCallback 3 false PyNone] /\
   call 3 (Busy failing) (pool_of 2 0) =
     Some (IdleEnter, pool_of 2 0, [EvCallback 3 false PyNone])) /\
  (try_func exiting = Raises SystemExit /\
   call 3 (Busy exiting) (pool_of 2 0) =
     Some (Died SystemExit, pool_of 2 0, [])) /\
  call 3 (Busy interrupted) (pool_of 2 0) =
    Some (Died KeyboardInterrupt, pool_of 2 0, [EvCallback 3 true (PyInt 7)]).
Proof.
  split_and!.
  - apply (proj1 (execute_swallows_exceptions 3 failing (pool_of 2 0))
             ZeroDivisionError); reflexivity.
  - apply (proj1 (proj2 (proj2 (execute_swallows_exceptions
                                  3 failing (pool_of 2 0)))) false PyNone).
    reflexivity.
  - apply (proj1 (proj2 (proj2 (proj2 (execute_swallows_exceptions
                                         3 failing (pool_of 2 0)))))
             false PyNone); reflexivity.
  - apply (proj1 (proj2 (proj2 (proj2 (proj2 (execute_swallows_exceptions
                                                3 exiting (pool_of 2 0))))))
             SystemExit); reflexivity.
  - apply (proj1 (proj2 (proj2 (proj2 (proj2 (execute_swallows_exceptions
                                                3 exiting (pool_of 2 0))))))
             SystemExit); reflexivity.
  - eapply (proj1 (proj2 (proj2 (proj2 (proj2 (proj2
              (execute_swallows_exceptions 3 interrupted (pool_of 2 0)))))))
              true (PyInt 7)); reflexivity.
Defined.

(** * [run] *)

Section Run.

Ltac client_steps :=
  unfold solo;
  cbn [replicate exec step client ctrl prog pool workers enter
       generate_thread fst snd app].

(** A [run] call on a pool whose [cancel] flag is unset, executed
    without interference, spawns exactly one new worker if and only if
    [free_list] is empty and [len(generate_list) < max_num], spawns none
    otherwise, changes nothing else, and in every case reaches the [put]
    of line 53, which appends the task at the tail of the queue (waiting
    while a bounded queue is full). *)
Lemma run_alone (c : Config) (w : Task) (rest : list api) :
  ctrl c = Ready -> prog c = Run w :: rest -> cancel (pool c) = false ->
  let ws := if spawn_cond (pool c) then workers c ++ [Spawned] else workers c in
  let at_put := mkConfig (pool c) ws (RunPut w) rest in
  (exists n,
      solo n c =
      Some (at_put,
            if spawn_cond (pool c) then [EvSpawn (length (workers c))] else [])) /\
  (length ws = if spawn_cond (pool c) then S (length (workers c))
               else length (workers c)) /\
  client at_put =
    (if full (q (pool c)) then None
     else Some (mkConfig
                  (set_q (mkQueue (maxsize (q (pool c)))
                                  (queue (q (pool c)) ++ [TaskItem w])) (pool c))
                  ws Ready rest,
                [EvPut (TaskItem w)])).
Proof.
  destruct c as [p ws0 pc pr]. simpl. intros -> -> Hc. split_and!.
  - unfold spawn_cond.
    destruct (length (free_list p) =? 0)%nat eqn:Hf; simpl.
    + destruct (Z.of_nat (length (generate_list p)) <? max_num p) eqn:Hg.
      * exists 5%nat. client_steps. rewrite Hc. client_steps. rewrite Hf.
        client_steps. rewrite Hg. client_steps. done.
      * exists 4%nat. client_steps. rewrite Hc. client_steps. rewrite Hf.
        client_steps. rewrite Hg. client_steps. done.
    + exists 3%nat. client_steps. rewrite Hc. client_steps. rewrite Hf.
      client_steps. done.
  - destruct (spawn_cond p); [| done]. rewrite length_app. simpl. lia.
  - unfold client; simpl. unfold put. by destruct (full (q p)).
Qed.

(** After [close] has set [cancel], [run] returns at line 47: no worker,
    no item, no event. *)
Lemma run_after_close_returns (c : Config) (w : Task) (rest : list api) :
  ctrl c = Ready -> prog c = Run w :: rest -> cancel (pool c) = true ->
  solo 2 c = Some (mkConfig (pool c) (workers c) Ready rest, []).
Proof.
  destruct c as [p ws0 pc pr]. simpl. intros -> -> Hc.
  client_steps. rewrite Hc. done.
Qed.

End Run.

(** C2 (the code at the failing input).  On a fresh pool, [terminate()]
    followed by [run(action, (1,))]: [terminate] leaves [cancel] unset, so
    the [run] call spawns a worker and enqueues the task. *)
Lemma run_after_terminate_is_not_ignored :
  solo 10 (boot (pool_of 1 0) [Terminate; Run (action 1)]) =
  Some (mkConfig (mkPool (mkQueue 0 [TaskItem (action 1)]) 1 false true [] [])
                 [Spawned] Ready [],
        [EvClear []; EvSpawn 0; EvPut (TaskItem (action 1))]).
Proof. reflexivity. Qed.

(** * [close] *)

Section Close.

Lemma room_not_full k qu : room (S k) qu -> full qu = false.
Proof.
  unfold room, full. intros [H|H].
  - destruct (Z.ltb_spec 0 (maxsize qu)); [lia | done].
  - destruct (Z.leb_spec (maxsize qu) (Z.of_nat (length (queue qu)))); [lia |].
    by rewrite andb_false_r.
Qed.

(** The loop of lines 102-104 with room for its [k] signals. *)
Lemma close_loop_solo k : forall p ws rest,
  room k (q p) ->
  solo (S k) (mkConfig p ws (CloseLoop k) rest) =
  Some (mkConfig
          (set_q (mkQueue (maxsize (q p)) (queue (q p) ++ replicate k StopEvent)) p)
          ws Ready rest,
        replicate k (EvPut StopEvent)).
Proof.
  induction k as [|k IH]; intros p ws rest Hroom.
  - destruct p as [[m l] ? ? ? ? ?]. unfold solo, set_q; simpl.
    by rewrite app_nil_r.
  - pose proof (room_not_full _ _ Hroom) as Hfull.
    change (solo (S (S k)) ?c) with
      (match client c with
       | None => None
       | Some (c1, evs) =>
           match solo (S k) c1 with
           | None => None
           | Some (c2, tr) => Some (c2, evs ++ tr)
           end
       end).
    unfold client; cbn [ctrl pool workers prog]. unfold put. rewrite Hfull.
    rewrite IH.
    + destruct p as [[m l] ? ? ? ? ?]. unfold set_q; simpl.
      by rewrite <- app_assoc.
    + destruct p as [[m l] ? ? ? ? ?]. unfold room in *; simpl in *.
      rewrite length_app; simpl. lia.
Qed.

(** The same loop on a bounded queue without room: it stops in a [put]. *)
Lemma close_loop_blocks k : forall p ws rest,
  (0 < k)%nat -> ~ room k (q p) ->
  exists j c,
    (j < k)%nat /\
    solo j (mkConfig p ws (CloseLoop k) rest) =
      Some (c, replicate j (EvPut StopEvent)) /\
    cancel (pool c) = cancel p /\
    ctrl c = CloseLoop (k - j) /\ client c = None.
Proof.
  induction k as [|k IH]; intros p ws rest Hk Hroom; [lia |].
  destruct (full (q p)) eqn:Hfull.
  - exists 0%nat. eexists. split_and!; [lia | reflexivity | done | done |].
    unfold client; simpl. unfold put. by rewrite Hfull.
  - assert (0 < k)%nat as Hk'.
    { destruct k; [| lia]. exfalso. apply Hroom. unfold room, full in *.
      destruct (Z.ltb_spec 0 (maxsize (q p))); [| lia].
      destruct (Z.leb_spec (maxsize (q p)) (Z.of_nat (length (queue (q p)))));
        [done | lia]. }
    destruct (IH (set_q (mkQueue (maxsize (q p)) (queue (q p) ++ [StopEvent])) p)
                 ws rest Hk') as (j & c & Hj & Hs & Hcc & Hc & Hb).
    { intros Hr. apply Hroom. destruct p as [[m l] ? ? ? ? ?].
      unfold room in *; simpl in *. rewrite length_app in Hr; simpl in Hr. lia. }
    exists (S j), c. split_and!; [lia | | done | done | done].
    unfold solo in *. cbn [replicate exec step].
    unfold client at 1; cbn [ctrl pool workers prog]. unfold put.
    rewrite Hfull, Hs. done.
Qed.

End Close.

(** C8 (counterexample).  A pool with [max_num = 1] and a queue bounded to
    one item: after [run(action, (1,))] the queue is full, and [close()],
    running alone, sets [cancel], counts, and then cannot take a step: it
    waits in [put] for a worker to take the task off the queue. *)
Lemma close_waits_on_full_queue :
  exists c tr,
    solo 9 (boot (pool_of 1 1) [Run (action 1); Close]) = Some (c, tr) /\
    ctrl c = CloseLoop 1 /\
    cancel (pool c) = true /\
    queue (q (pool c)) = [TaskItem (action 1)] /\
    step Main c = None.
Proof. do 2 eexists. split; [vm_compute; reflexivity |]. repeat split. Qed.

(** Executed alone, [close()] sets [cancel] and enqueues exactly
    [len(generate_list) + 1] [StopEvent]s, the length being read once at
    the call.  When the queue is unbounded or has room for them, [close]
    executed alone returns after those puts without waiting for any worker
    and with nothing else changed; on a bounded queue without that room it
    blocks in a [put] before all of them are enqueued. *)
Lemma close_alone (c : Config) (rest : list api) :
  ctrl c = Ready -> prog c = Close :: rest ->
  let n := length (generate_list (pool c)) in
  (room (n + 1) (q (pool c)) ->
   solo (n + 5) c =
   Some (mkConfig
           (set_q (mkQueue (maxsize (q (pool c)))
                           (queue (q (pool c)) ++ replicate (n + 1) StopEvent))
                  (set_cancel true (pool c)))
           (workers c) Ready rest,
         replicate (n + 1) (EvPut StopEvent))) /\
  (~ room (n + 1) (q (pool c)) ->
   exists j c',
     (j < n + 1)%nat /\
     solo (3 + j) c = Some (c', replicate j (EvPut StopEvent)) /\
     cancel (pool c') = true /\
     ctrl c' = CloseLoop (n + 1 - j) /\ client c' = None).
Proof.
  destruct c as [p ws pc pr]. simpl. intros -> ->. split.
  - intros Hroom.
    replace (length (generate_list p) + 5)%nat
      with (S (S (S (S (length (generate_list p) + 1))))) by lia.
    pose proof (close_loop_solo (length (generate_list p) + 1)
                  (set_cancel true p) ws rest) as H.
    unfold solo in *.
    cbn [replicate exec step client ctrl prog pool workers enter] in *.
    change (generate_list (set_cancel true p)) with (generate_list p).
    rewrite H; [done | by destruct p].
  - intros Hroom.
    destruct (close_loop_blocks (length (generate_list p) + 1)
                (set_cancel true p) ws rest) as (j & c' & Hj & Hs & Hcc & Hc & Hb);
      [lia | by destruct p |].
    exists j, c'. split_and!; try done.
    unfold solo in *.
    cbn [Nat.add replicate exec step client ctrl prog pool workers enter].
    change (generate_list (set_cancel true p)) with (generate_list p).
    rewrite Hs. done.
Qed.

(** * The two thread lists *)

Section Lists.

(** [free_list] is always a subset of [generate_list]. *)
Lemma free_list_subset c t :
  reachable c -> t ∈ free_list (pool c) -> t ∈ generate_list (pool c).
Proof.
  intros Hr%wf_reachable Hin. destruct Hr as (_ & _ & Hg & Hf).
  apply Hf in Hin as (pc & Hpc & Hi). apply Hg. exists pc. split; [done |].
  by destruct pc.
Qed.

Lemma reachable_step a c c' evs :
  reachable c -> step a c = Some (c', evs) -> reachable c'.
Proof.
  intros (m & k & calls & c0 & sched & tr & Hi & He) Hs.
  exists m, k, calls, c0, (sched ++ [a]), (tr ++ evs). split; [done |].
  rewrite exec_app, He. simpl. rewrite Hs. by rewrite app_nil_r.
Qed.

End Lists.

(** C7 (the code at the failing input).  [ThreadPool(1)], two [run] calls
    made before either new thread has executed line 68, then both threads
    register: [generate_list] holds two threads although [max_num] is 1. *)
Lemma generate_list_exceeds_max_num :
  exists c tr,
    exec (replicate 12 Main ++ [Worker 0; Worker 1])
         (boot (pool_of 1 0) [Run (action 1); Run (action 2)]) = Some (c, tr) /\
    generate_list (pool c) = [0; 1]%nat /\
    max_num (pool c) = 1 /\
    max_num (pool c) < Z.of_nat (length (generate_list (pool c))).
Proof. do 2 eexists. split; [vm_compute; reflexivity |]. repeat split. Qed.



(** * Leaving [generate_list] *)

Section Removal.






End Removal.

Section RemovalStep.






End RemovalStep.

(** * [run] calls followed by [close] *)

Section Graceful.



Lemma all_stops_snoc l :
  forallb is_stop l = true -> forallb is_stop (l ++ [StopEvent]) = true.
Proof. intros H. rewrite forallb_app, H. done. Qed.







Lemma get_head qu x qu' :
  get qu = Some (x, qu') -> queue qu = x :: queue qu'.
Proof.
  unfold get. destruct (queue qu) as [|y l] eqn:E; [done |].
  intros [= <- <-]. done.
Qed.

Ltac split_step H :=
  repeat match type of H with
    | match ?x with _ => _ end = _ => destruct x eqn:?; simpl in H
    | (let '(_, _) := ?x in _) = _ => destruct x eqn:?; simpl in H
    end.

(** A worker step changes the queue only by taking its head, and emits
    the item taken. *)
Lemma call_queue t pc p pc' p' evs :
  call t pc p = Some (pc', p', evs) ->
  cancel p' = cancel p /\ terminal p' = terminal p /\
  ((queue (q p') = queue (q p) /\ gots evs = []) \/
   (exists x, queue (q p) = x :: queue (q p') /\ gots evs = [x])).
Proof.
  intros H.
  destruct pc as [| |[w|]|w| | | |ev| |e]; simpl in H; split_step H;
    simplify_eq; simpl; split_and!; try done;
    try (left; split; [done |]; done);
    try (right; eexists; split; [by eapply get_head | done]).
  - left. split; [done |]. unfold execute in *.
    destruct (try_func w) as [[s r]|]; [| by simplify_eq].
    destruct (try_callback w s r) as [[] ?]; by simplify_eq.
  - left. split; [done |]. unfold execute in *.
    destruct (try_func w) as [[s r]|]; [| by simplify_eq].
    destruct (try_callback w s r) as [[] ?]; by simplify_eq.
Qed.

Lemma client_gots c c' evs : client c = Some (c', evs) -> gots evs = [].
Proof.
  unfold client. intros H.
  destruct (ctrl c) as [|w|w|w|w|w| | |[|n]| | | |]; simpl in H;
    split_step H; by simplify_eq.
Qed.

Lemma put_queue x qu qu' : put x qu = Some qu' -> queue qu' = queue qu ++ [x].
Proof. unfold put. destruct (full qu); [done |]. by intros [= <-]. Qed.


End Graceful.

Section Drained.

Lemma gots_app tr1 tr2 : gots (tr1 ++ tr2) = gots tr1 ++ gots tr2.
Proof. unfold gots. apply omap_app. Qed.


(** What a step takes off the queue: nothing, or its head. *)
Lemma step_gots a c c' evs :
  step a c = Some (c', evs) ->
  cancel (pool c) = true -> cancel (pool c') = true.
Proof.
  intros H Hc. destruct a as [|t]; simpl in H.
  - unfold client in H.
    destruct (ctrl c) as [|w|w|w|w|w| | |[|n]| | | |]; simpl in H;
      repeat match type of H with
        | match ?x with _ => _ end = _ => destruct x eqn:?; simpl in H
        end;
      by simplify_eq.
  - destruct (workers c !! t) as [pc|] eqn:Ht; [| done].
    destruct (call t pc (pool c)) as [[[pc' p'] evs']|] eqn:Hcall; [| done].
    simplify_eq. destruct (call_queue _ _ _ _ _ _ Hcall) as (Hcan & _ & _).
    simpl. congruence.
Qed.

Lemma step_takes_head a c c' evs :
  step a c = Some (c', evs) ->
  gots evs = [] \/
  (exists x, queue (q (pool c)) = x :: queue (q (pool c')) /\ gots evs = [x]).
Proof.
  intros H. destruct a as [|t]; simpl in H.
  - left. by eapply client_gots.
  - destruct (workers c !! t) as [pc|] eqn:Ht; [| done].
    destruct (call t pc (pool c)) as [[[pc' p'] evs']|] eqn:Hcall; [| done].
    simplify_eq. destruct (call_queue _ _ _ _ _ _ Hcall) as (_ & _ & Hq).
    destruct Hq as [[_ ?]|[x [? ?]]]; [by left | right; by exists x].
Qed.






End Drained.


(** * [terminate] *)

Section Terminate.

Ltac split_client H :=
  repeat match type of H with
    | match ?x with _ => _ end = _ => destruct x eqn:?; simpl in H
    end.

Lemma client_prog_length c c' evs :
  client c = Some (c', evs) -> (length (prog c') <= length (prog c))%nat.
Proof.
  unfold client. intros H.
  destruct (ctrl c) as [|w|w|w|w|w| | |[|n]| | | |]; simpl in H;
    split_client H; simplify_eq; simpl; lia.
Qed.

Lemma worker_step_frame t c c' evs :
  step (Worker t) c = Some (c', evs) ->
  ctrl c' = ctrl c /\ prog c' = prog c /\
  terminal (pool c') = terminal (pool c) /\
  (queue (q (pool c)) = [] -> queue (q (pool c')) = []).
Proof.
  simpl. intros H.
  destruct (workers c !! t) as [pc|] eqn:Ht; [| done].
  destruct (call t pc (pool c)) as [[[pc' p'] evs']|] eqn:Hcall; [| done].
  simplify_eq. destruct (call_queue _ _ _ _ _ _ Hcall) as (_ & Hter & Hq).
  simpl. split_and!; try done.
  intros Hnil. destruct Hq as [[-> _]|[x [Hx _]]]; [done | congruence].
Qed.

Lemma terminating_step rest a c c' evs :
  terminating rest c -> step a c = Some (c', evs) -> terminating rest c'.
Proof.
  intros Ht H. destruct a as [|t].
  - simpl in H. pose proof (client_prog_length _ _ _ H) as Hlen.
    unfold terminating in *. unfold client in H.
    destruct Ht as [[Hc Hp]|[[Hp Hc]|[(Hp & Hter & Hc)|[(Hp & Hter & Hc & Hq)|Hl]]]].
    + rewrite Hc, Hp in H. simplify_eq. simpl. right. left. done.
    + rewrite Hc in H. simplify_eq. simpl. right. right. left. by eauto.
    + destruct Hc as [Hc|[Hc|Hc]]; rewrite Hc in H; simpl in H;
        split_client H; simplify_eq; simpl.
      * right. right. left. by eauto.
      * right. right. left. by eauto.
      * right. right. left. by eauto.
      * right. right. right. left. done.
    + rewrite Hc in H. destruct (prog c) as [|b r] eqn:Hpr; [done |].
      simplify_eq. simpl. right. right. right. right. simpl. lia.
    + right. right. right. right. lia.
  - destruct (worker_step_frame _ _ _ _ H) as (Hc & Hp & Hter & Hq).
    unfold terminating in *. rewrite Hc, Hp, Hter.
    destruct Ht as [?|[?|[?|[(? & ? & ? & ?)|?]]]]; eauto 10.
Qed.

Lemma quiescent_step a c c' evs :
  quiescent c -> step a c = Some (c', evs) ->
  quiescent c' /\ forallb is_stop (gots evs) = true.
Proof.
  intros (Hprog & Hpc & Hq) H.
  destruct (step_takes_head _ _ _ _ H) as [Hn|[x [Hx Hn]]].
  - rewrite Hn. split; [| done]. destruct a as [|t].
    + simpl in H. unfold client in H. unfold quiescent.
      destruct (ctrl c) as [|w|w|w|w|w| | |[|n]| | | |]; simpl in H, Hpc;
        try done; split_client H; simplify_eq; simpl;
        try (match goal with E : put _ _ = Some _ |- _ =>
               apply put_queue in E; rewrite E end);
        try (simpl in Hprog; apply orb_false_iff in Hprog as [Ha Hprog]);
        split_and!; try done; try (by apply all_stops_snoc).
      by destruct a.
    + destruct (worker_step_frame _ _ _ _ H) as (Hc & Hp & _ & _).
      unfold quiescent. rewrite Hc, Hp. split_and!; try done.
      simpl in H.
      destruct (workers c !! t) as [pc|] eqn:Ht; [| done].
      destruct (call t pc (pool c)) as [[[pc' p'] evs']|] eqn:Hcall; [| done].
      simplify_eq. destruct (call_queue _ _ _ _ _ _ Hcall) as (_ & _ & Hq').
      simpl. destruct Hq' as [[-> _]|[y [Hy ?]]]; [done |].
      rewrite Hy in Hq. simpl in Hq. by apply andb_true_iff in Hq as [_ ?].
  - rewrite Hn. rewrite Hx in Hq. simpl in Hq.
    apply andb_true_iff in Hq as [Hxs Hq]. split.
    + destruct a as [|t]; [apply client_gots in H; congruence |].
      destruct (worker_step_frame _ _ _ _ H) as (Hc & Hp & _ & _).
      unfold quiescent. rewrite Hc, Hp. done.
    + simpl. by rewrite Hxs.
Qed.

Lemma quiescent_exec sched : forall c c' tr,
  quiescent c -> exec sched c = Some (c', tr) ->
  forallb is_stop (gots tr) = true.
Proof.
  induction sched as [|a sched IH]; intros c c' tr Hq H; simpl in H.
  - by simplify_eq.
  - destruct (step a c) as [[c1 evs]|] eqn:Hs; [| done].
    destruct (exec sched c1) as [[c2 tr2]|] eqn:He; [| done].
    simplify_eq. destruct (quiescent_step _ _ _ _ Hq Hs) as [Hq1 Hevs].
    rewrite gots_app, forallb_app, Hevs. simpl. by eapply IH.
Qed.

End Terminate.

(** C1 (counterexample).  [ThreadPool(1)], one task, which worker 0 is
    running when [terminate()] is called: one worker is active at the
    call, yet [terminate] puts two [StopEvent]s, one for each time line 112
    finds [generate_list] non-empty; the worker stops on the flag without
    taking either, and the final [clear] discards both, so none remains
    when [terminate] returns.  In the second run [terminate] is called
    before the new thread has registered: it puts no [StopEvent], clears
    the task away and returns, after which the worker registers and waits
    for ever on the empty queue. *)
Lemma terminate_signals_not_one_per_worker :
  let at_call :=
    mkConfig (mkPool (mkQueue 0 []) 1 false false [0%nat] [])
             [Busy (action 1)] Ready [Terminate] in
  let returned :=
    mkConfig (mkPool (mkQueue 0 []) 1 false true [] [])
             [Finished] Ready [] in
  let stuck :=
    mkConfig (mkPool (mkQueue 0 []) 1 false true [0%nat] [])
             [FirstGet] Ready [] in
  exec (replicate 6 Main ++ replicate 3 (Worker 0%nat))
       (boot (pool_of 1 0) [Run (action 1); Terminate]) =
    Some (at_call, [EvSpawn 0; EvPut (TaskItem (action 1));
                    EvGet 0 (TaskItem (action 1))]) /\
  length (generate_list (pool at_call)) = 1%nat /\
  exec (replicate 6 Main ++ replicate 5 (Worker 0%nat) ++ replicate 2 Main)
       at_call =
    Some (returned, [EvPut StopEvent; EvPut StopEvent; EvRemove 0;
                     EvClear [StopEvent; StopEvent]]) /\
  stop_puts [EvPut StopEvent; EvPut StopEvent; EvRemove 0;
             EvClear [StopEvent; StopEvent]] = 2%nat /\
  exec (replicate 10 Main ++ [Worker 0%nat])
       (boot (pool_of 1 0) [Run (action 1); Terminate]) =
    Some (stuck, [EvSpawn 0; EvPut (TaskItem (action 1));
                  EvClear [TaskItem (action 1)]]) /\
  step (Worker 0%nat) stuck = None /\ step Main stuck = None.
Proof. cbv zeta. split_and!; vm_compute; reflexivity. Qed.

(** C1 (amended).  [terminate()] sets [terminal]; then, for as long as it
    finds [generate_list] non-empty, it puts one [StopEvent] at the tail of
    the queue (waiting while a bounded queue is full), so the number put is
    not fixed by the number of workers at the call; once it finds
    [generate_list] empty it clears the whole queue, [StopEvent]s
    included.  Hence when [terminate()] returns, under any interleaving
    with the workers, [terminal] is set and the queue is empty: every item
    not yet taken by a worker is gone, and as long as no later [run] is
    made no worker takes a task off the queue again. *)
Theorem terminate_clears_everything c0 rest sched c1 tr :
  ctrl c0 = Ready -> prog c0 = Terminate :: rest ->
  exec sched c0 = Some (c1, tr) ->
  ctrl c1 = Ready -> prog c1 = rest ->
  (terminal (pool c1) = true /\ queue (q (pool c1)) = []) /\
  (existsb is_run rest = false ->
   forall sched' c2 tr',
     exec sched' c1 = Some (c2, tr') -> forallb is_stop (gots tr') = true) /\
  (forall c,
      (ctrl c = TermSet ->
       client c = Some (mkConfig (set_terminal true (pool c)) (workers c)
                                 TermLoop (prog c), [])) /\
      (ctrl c = TermLoop ->
       client c = Some (mkConfig (pool c) (workers c)
                                 (match generate_list (pool c) with
                                  | [] => TermClear
                                  | _ :: _ => TermPut
                                  end) (prog c), [])) /\
      (ctrl c = TermPut ->
       client c =
         if full (q (pool c)) then None
         else Some (mkConfig
                      (set_q (mkQueue (maxsize (q (pool c)))
                                      (queue (q (pool c)) ++ [StopEvent]))
                             (pool c))
                      (workers c) TermLoop (prog c),
                    [EvPut StopEvent])) /\
      (ctrl c = TermClear ->
       client c = Some (mkConfig
                          (set_q (mkQueue (maxsize (q (pool c))) []) (pool c))
                          (workers c) Ready (prog c),
                        [EvClear (queue (q (pool c)))]))).
Proof.
  intros Hc0 Hp0 He Hc1 Hp1.
  assert (terminating rest c1) as Ht.
  { eapply (exec_invariant (terminating rest)); [| | exact He].
    - intros a c c' evs. apply terminating_step.
    - left. done. }
  assert (terminal (pool c1) = true /\ queue (q (pool c1)) = []) as [Hter Hq].
  { destruct Ht as [[_ Hp]|[[_ Hc]|[(_ & _ & Hc)|[(_ & ? & _ & ?)|Hl]]]].
    - rewrite Hp1 in Hp. apply (f_equal length) in Hp. simpl in Hp. lia.
    - congruence.
    - destruct Hc as [Hc|[Hc|Hc]]; congruence.
    - done.
    - rewrite Hp1 in Hl. lia. }
  split_and!; try done.
  - intros Hrest sched' c2 tr' He'.
    eapply quiescent_exec; [| exact He'].
    unfold quiescent. rewrite Hp1, Hc1, Hq. done.
  - intros c. unfold client. split_and!; intros ->; try done.
    + by destruct (generate_list (pool c)).
    + unfold put. by destruct (full (q (pool c))).
Qed.

Lemma terminate_clears_everything_witness :
  terminal (mkPool (mkQueue 0 []) 1 false true [] []) = true /\
  queue (q (mkPool (mkQueue 0 []) 1 false true [] [])) = [].
Proof.
  pose (c0 := mkConfig (mkPool (mkQueue 0 []) 1 false false [0%nat] [])
                       [Busy (action 1)] Ready [Terminate]).
  pose (c1 := mkConfig (mkPool (mkQueue 0 []) 1 false true [] [])
                       [Finished] Ready []).
  assert (exec (replicate 6 Main ++ replicate 5 (Worker 0%nat)
                  ++ replicate 2 Main) c0 =
          Some (c1, [EvPut StopEvent; EvPut StopEvent; EvRemove 0;
                     EvClear [StopEvent; StopEvent]])) as He
    by (vm_compute; reflexivity).
  exact (proj1 (terminate_clears_everything c0 [] _ c1 _
                  eq_refl eq_refl He eq_refl eq_refl)).
Defined.

(** * Further properties of the thread lists *)

Section ThreadLists.

Lemma nodup_bounded_length (l : list nat) n :
  NoDup l -> (forall x, x ∈ l -> (x < n)%nat) -> (length l <= n)%nat.
Proof.
  intros Hnd Hlt.
  assert (l ⊆+ seq 0 n) as Hsub.
  { apply NoDup_submseteq; [done |]. intros x Hx. apply elem_of_seq.
    specialize (Hlt x Hx). lia. }
  apply submseteq_length in Hsub. by rewrite length_seq in Hsub.
Qed.

Lemma nodup_subset_length (l k : list nat) :
  NoDup l -> (forall x, x ∈ l -> x ∈ k) -> (length l <= length k)%nat.
Proof.
  intros Hnd Hsub. apply submseteq_length. by apply NoDup_submseteq.
Qed.




Lemma generate_list_short c :
  wf c -> (length (generate_list (pool c)) <= length (workers c))%nat.
Proof.
  intros (Hg & _ & Hgl & _). apply nodup_bounded_length; [done |].
  intros t (pc & Hpc & _)%Hgl. by eapply lookup_lt_Some.
Qed.

End ThreadLists.

(** X1.  In every reachable state [generate_list] and [free_list] hold no
    thread twice, [free_list] is contained in [generate_list], every
    listed thread is one that was started, and so neither list is longer
    than the number of threads started. *)
Theorem thread_lists_are_sets (c : Config) :
  reachable c ->
  NoDup (generate_list (pool c)) /\
  NoDup (free_list (pool c)) /\
  (forall t, t ∈ free_list (pool c) -> t ∈ generate_list (pool c)) /\
  (forall t, t ∈ generate_list (pool c) -> (t < length (workers c))%nat) /\
  (length (free_list (pool c)) <= length (generate_list (pool c)))%nat /\
  (length (generate_list (pool c)) <= length (workers c))%nat.
Proof.
  intros Hr. pose proof (wf_reachable _ Hr) as (Hg & Hf & Hgl & Hfl).
  assert (forall t, t ∈ generate_list (pool c) -> (t < length (workers c))%nat)
    as Hlt.
  { intros t (pc & Hpc & _)%Hgl. by eapply lookup_lt_Some. }
  assert (forall t, t ∈ free_list (pool c) -> t ∈ generate_list (pool c))
    as Hsub by (intros t; by apply free_list_subset).
  split_and!; try done.
  - by apply nodup_subset_length.
  - by apply nodup_bounded_length.
Qed.

Lemma thread_lists_are_sets_witness :
  let c := mkConfig (mkPool (mkQueue 0 []) 2 false false [0%nat] [0%nat])
                    [IdleGet] Ready [] in
  NoDup (free_list (pool c)) /\
  (length (generate_list (pool c)) <= length (workers c))%nat.
Proof.
  intros c.
  assert (reachable c) as Hr.
  { exists 2, None, [Run (action 1)].
    eexists. exists (replicate 6 Main ++ replicate 6 (Worker 0%nat)).
    eexists. split; [reflexivity | vm_compute; reflexivity]. }
  destruct (thread_lists_are_sets c Hr) as (_ & H2 & _ & _ & _ & H6).
  split; [exact H2 | exact H6].
Defined.



(** * Threads are started on demand *)

Section OnDemand.

Lemma spawns_app tr1 tr2 : spawns (tr1 ++ tr2) = (spawns tr1 + spawns tr2)%nat.
Proof. unfold spawns. by rewrite List.filter_app, length_app. Qed.

Lemma call_no_spawn t pc p pc' p' evs :
  call t pc p = Some (pc', p', evs) -> spawns evs = 0%nat.
Proof.
  intros H.
  destruct pc as [| |[w|]|w| | | |ev| |e]; simpl in H;
    repeat match type of H with
      | match ?x with _ => _ end = _ => destruct x eqn:?; simpl in H
      | (let '(_, _) := ?x in _) = _ => destruct x eqn:?; simpl in H
      end;
    simplify_eq; try done.
  all: unfold execute in *;
    (destruct (try_func w) as [[s r]|]; [| by simplify_eq]);
    destruct (try_callback w s r) as [[] ?]; by simplify_eq.
Qed.

(** A step starts at most one thread, and only by using up a [run] call. *)
Lemma spawn_budget_step a c c' evs :
  step a c = Some (c', evs) ->
  (spawns evs + length (workers c))%nat = length (workers c') /\
  (length (workers c') + may_spawn (ctrl c') + count_runs (prog c')
   <= length (workers c) + may_spawn (ctrl c) + count_runs (prog c))%nat.
Proof.
  intros H. destruct a as [|t]; simpl in H.
  - unfold client in H.
    destruct (ctrl c) as [|w|w|w|w|w| | |[|n]| | | |] eqn:Hc; simpl in H;
      repeat match type of H with
        | match ?x with _ => _ end = _ => destruct x eqn:?; simpl in H
        end;
      simplify_eq; simpl; rewrite ?length_app; simpl; try (split; lia).
    unfold count_runs. simpl. destruct a; simpl; split; lia.
  - destruct (workers c !! t) as [pc|] eqn:Ht; [| done].
    destruct (call t pc (pool c)) as [[[pc' p'] evs']|] eqn:Hcall; [| done].
    simplify_eq. simpl. rewrite length_insert.
    rewrite (call_no_spawn _ _ _ _ _ _ Hcall). split; lia.
Qed.

Lemma spawn_budget_exec sched : forall c c' tr,
  exec sched c = Some (c', tr) ->
  (spawns tr + length (workers c))%nat = length (workers c') /\
  (length (workers c') + may_spawn (ctrl c') + count_runs (prog c')
   <= length (workers c) + may_spawn (ctrl c) + count_runs (prog c))%nat.
Proof.
  induction sched as [|a sched IH]; intros c c' tr H; simpl in H.
  - simplify_eq. split; [done | lia].
  - destruct (step a c) as [[c1 evs]|] eqn:Hs; [| done].
    destruct (exec sched c1) as [[c2 tr2]|] eqn:He; [| done].
    simplify_eq. destruct (spawn_budget_step _ _ _ _ Hs) as [H1 H2].
    destruct (IH _ _ _ He) as [H3 H4]. rewrite spawns_app. split; lia.
Qed.

End OnDemand.

(** X3.  Threads are started on demand only: along every execution of a
    fresh pool the number of threads started is at most the number of
    [run] calls the client has begun, whatever [max_num] is, and
    [generate_list] is never longer than that. *)
Theorem threads_started_at_most_runs m k calls c0 sched c tr :
  initial m k calls = Some c0 -> exec sched c0 = Some (c, tr) ->
  spawns tr = length (workers c) /\
  (length (workers c) + count_runs (prog c) <= count_runs calls)%nat /\
  (length (generate_list (pool c)) <= count_runs calls)%nat.
Proof.
  intros Hi He.
  assert (reachable c) as Hr by (by exists m, k, calls, c0, sched, tr).
  pose proof (generate_list_short c (wf_reachable c Hr)) as Hlen.
  rewrite initial_boot in Hi. simplify_eq.
  destruct (spawn_budget_exec _ _ _ _ He) as [H1 H2]. simpl in H1, H2.
  split_and!; lia.
Qed.

Lemma threads_started_at_most_runs_witness :
  (length [Spawned; Spawned] + count_runs [Close] <=
   count_runs [Run (action 1); Run (action 2); Close])%nat.
Proof.
  assert (exec (replicate 12 Main)
               (boot (pool_of 5 0) [Run (action 1); Run (action 2); Close]) =
          Some (mkConfig
                  (mkPool (mkQueue 0 [TaskItem (action 1); TaskItem (action 2)])
                          5 false false [] [])
                  [Spawned; Spawned] Ready [Close],
                [EvSpawn 0; EvPut (TaskItem (action 1));
                 EvSpawn 1; EvPut (TaskItem (action 2))])) as He
    by (vm_compute; reflexivity).
  pose proof (threads_started_at_most_runs 5 None _ _ _ _ _ eq_refl He)
    as (_ & H & _).
  exact H.
Defined.

(** * The queue as a FIFO channel *)

Section Fifo.

Lemma puts_app tr1 tr2 : puts (tr1 ++ tr2) = puts tr1 ++ puts tr2.
Proof. unfold puts. apply omap_app. Qed.

Lemma leaving_app tr1 tr2 : leaving (tr1 ++ tr2) = leaving tr1 ++ leaving tr2.
Proof. unfold leaving. by rewrite map_app, concat_app. Qed.

Lemma execute_quiet t w :
  puts (fst (execute t w)) = [] /\ leaving (fst (execute t w)) = [].
Proof.
  unfold execute. destruct (try_func w) as [[s r]|]; [| done].
  by destruct (try_callback w s r) as [[] ?].
Qed.

(** A worker step puts nothing and takes at most the head. *)
Lemma call_fifo t pc p pc' p' evs :
  call t pc p = Some (pc', p', evs) ->
  maxsize (q p') = maxsize (q p) /\
  puts evs = [] /\ queue (q p) = leaving evs ++ queue (q p').
Proof.
  intros H.
  destruct pc as [| |[w|]|w| | | |ev| |e]; simpl in H;
    repeat match type of H with
      | match ?x with _ => _ end = _ => destruct x eqn:?; simpl in H
      | (let '(_, _) := ?x in _) = _ => destruct x eqn:?; simpl in H
      end;
    simplify_eq; simpl; try done;
    try (match goal with E : get _ = Some _ |- _ =>
           pose proof (get_head _ _ _ E) as ->; unfold get in E;
           destruct (queue (q p)); simplify_eq; done end).
  all: destruct (execute_quiet t w) as [Hp Hl];
    match goal with E : execute _ _ = _ |- _ => rewrite E in Hp, Hl end;
    simpl in Hp, Hl; by rewrite Hp, Hl.
Qed.

Lemma step_fifo a c c' evs :
  step a c = Some (c', evs) ->
  maxsize (q (pool c')) = maxsize (q (pool c)) /\
  queue (q (pool c)) ++ puts evs = leaving evs ++ queue (q (pool c')).
Proof.
  intros H. destruct a as [|t]; simpl in H.
  - unfold client in H.
    destruct (ctrl c) as [|w|w|w|w|w| | |[|n]| | | |]; simpl in H;
      repeat match type of H with
        | match ?x with _ => _ end = _ => destruct x eqn:?; simpl in H
        end;
      simplify_eq; simpl; rewrite ?app_nil_r; try done;
      try (match goal with E : put _ _ = Some _ |- _ =>
             unfold put in E; destruct (full _); simplify_eq; done end).
    unfold leaving; simpl. by rewrite app_nil_r.
  - destruct (workers c !! t) as [pc|] eqn:Ht; [| done].
    destruct (call t pc (pool c)) as [[[pc' p'] evs']|] eqn:Hcall; [| done].
    simplify_eq. destruct (call_fifo _ _ _ _ _ _ Hcall) as (Hm & Hp & Hq).
    simpl. rewrite Hp, app_nil_r. done.
Qed.

Lemma exec_fifo sched : forall c c' tr,
  exec sched c = Some (c', tr) ->
  queue (q (pool c)) ++ puts tr = leaving tr ++ queue (q (pool c')).
Proof.
  induction sched as [|a sched IH]; intros c c' tr H; simpl in H.
  - simplify_eq. simpl. by rewrite app_nil_r.
  - destruct (step a c) as [[c1 evs]|] eqn:Hs; [| done].
    destruct (exec sched c1) as [[c2 tr2]|] eqn:He; [| done].
    simplify_eq. destruct (step_fifo _ _ _ _ Hs) as [_ H1].
    rewrite puts_app, leaving_app, app_assoc, H1, <- !app_assoc.
    f_equal. by apply IH.
Qed.

End Fifo.

(** X4.  The queue is a FIFO channel between the client and the workers:
    along every execution, what was on the queue at the start followed by
    the items put since, in order, is exactly the items that left it (taken
    by a worker or discarded by [terminate]), in order, followed by what
    is on it now.  No item is duplicated, reordered or taken twice. *)
Theorem queue_is_fifo sched : forall c c' tr,
  exec sched c = Some (c', tr) ->
  queue (q (pool c)) ++ puts tr = leaving tr ++ queue (q (pool c')).
Proof. exact (exec_fifo sched). Qed.

Lemma queue_is_fifo_witness :
  [] ++ puts [EvSpawn 0; EvPut (TaskItem (action 1));
              EvGet 0 (TaskItem (action 1));
              EvPut StopEvent; EvPut StopEvent;
              EvGet 0 StopEvent; EvRemove 0] =
  leaving [EvSpawn 0; EvPut (TaskItem (action 1));
           EvGet 0 (TaskItem (action 1));
           EvPut StopEvent; EvPut StopEvent;
           EvGet 0 StopEvent; EvRemove 0] ++ [StopEvent].
Proof.
  assert (exec (replicate 6 Main ++ replicate 6 (Worker 0%nat)
                  ++ replicate 6 Main ++ replicate 3 (Worker 0%nat))
               (boot (pool_of 1 0) [Run (action 1); Close]) =
          Some (mkConfig (mkPool (mkQueue 0 [StopEvent]) 1 true false [] [])
                         [Finished] Ready [],
                [EvSpawn 0; EvPut (TaskItem (action 1));
                 EvGet 0 (TaskItem (action 1));
                 EvPut StopEvent; EvPut StopEvent;
                 EvGet 0 StopEvent; EvRemove 0])) as He
    by (vm_compute; reflexivity).
  exact (queue_is_fifo _ _ _ _ He).
Defined.

(** * Callbacks and tasks *)

Section Callbacks.

Lemma callbacks_app tr1 tr2 :
  callbacks (tr1 ++ tr2) = (callbacks tr1 + callbacks tr2)%nat.
Proof. unfold callbacks. by rewrite List.filter_app, length_app. Qed.

Lemma task_gets_app tr1 tr2 :
  task_gets (tr1 ++ tr2) = (task_gets tr1 + task_gets tr2)%nat.
Proof. unfold task_gets. by rewrite List.filter_app, length_app. Qed.

Lemma in_hand_insert ws : forall t pc pc',
  ws !! t = Some pc ->
  (in_hand (<[t := pc']> ws) + holding pc = in_hand ws + holding pc')%nat.
Proof.
  unfold in_hand. induction ws as [|x ws IH]; intros t pc pc' Ht; [done |].
  destruct t as [|t]; simpl in *.
  - simplify_eq. lia.
  - specialize (IH t pc pc' Ht). lia.
Qed.

Lemma in_hand_snoc ws : in_hand (ws ++ [Spawned]) = in_hand ws.
Proof. unfold in_hand. rewrite sum_list_with_app. simpl. lia. Qed.

Lemma execute_callbacks t w : (callbacks (fst (execute t w)) <= 1)%nat.
Proof.
  unfold execute.
  destruct (try_func w) as [[s r]|]; [| unfold callbacks; simpl; lia].
  destruct (try_callback w s r) as [[] ?]; simpl; unfold callbacks; simpl; lia.
Qed.

Lemma execute_no_get t w : task_gets (fst (execute t w)) = 0%nat.
Proof.
  unfold execute. destruct (try_func w) as [[s r]|]; [| done].
  by destruct (try_callback w s r) as [[] ?].
Qed.

(** A callback is paid for by a task in hand; a task in hand by a [get]. *)
Lemma call_callbacks t pc p pc' p' evs :
  call t pc p = Some (pc', p', evs) ->
  (callbacks evs + holding pc' <= task_gets evs + holding pc)%nat.
Proof.
  intros H.
  destruct pc as [| |[w|]|w| | | |[w|]| |e]; simpl in H;
    repeat match type of H with
      | match ?x with _ => _ end = _ => destruct x eqn:?; simpl in H
      | (let '(_, _) := ?x in _) = _ => destruct x eqn:?; simpl in H
      end;
    simplify_eq; simpl; try (unfold callbacks, task_gets; simpl; lia);
    try (match goal with i : item |- _ =>
           destruct i; unfold callbacks, task_gets; simpl; lia end).
  all: pose proof (execute_callbacks t w) as Hcb;
    pose proof (execute_no_get t w) as Hg;
    match goal with E : execute _ _ = _ |- _ => rewrite E in Hcb, Hg end;
    simpl in Hcb, Hg; lia.
Qed.

Lemma step_callbacks a c c' evs :
  step a c = Some (c', evs) ->
  (callbacks evs + in_hand (workers c')
   <= task_gets evs + in_hand (workers c))%nat.
Proof.
  intros H. destruct a as [|t]; simpl in H.
  - unfold client in H.
    destruct (ctrl c) as [|w|w|w|w|w| | |[|n]| | | |]; simpl in H;
      repeat match type of H with
        | match ?x with _ => _ end = _ => destruct x eqn:?; simpl in H
        end;
      simplify_eq; simpl; rewrite ?in_hand_snoc;
      unfold callbacks, task_gets; simpl; lia.
  - destruct (workers c !! t) as [pc|] eqn:Ht; [| done].
    destruct (call t pc (pool c)) as [[[pc' p'] evs']|] eqn:Hcall; [| done].
    simplify_eq. simpl.
    pose proof (call_callbacks _ _ _ _ _ _ Hcall).
    pose proof (in_hand_insert _ _ _ pc' Ht). lia.
Qed.

Lemma exec_callbacks sched : forall c c' tr,
  exec sched c = Some (c', tr) ->
  (callbacks tr + in_hand (workers c')
   <= task_gets tr + in_hand (workers c))%nat.
Proof.
  induction sched as [|a sched IH]; intros c c' tr H; simpl in H.
  - simplify_eq. unfold callbacks, task_gets. simpl. lia.
  - destruct (step a c) as [[c1 evs]|] eqn:Hs; [| done].
    destruct (exec sched c1) as [[c2 tr2]|] eqn:He; [| done].
    simplify_eq. rewrite callbacks_app, task_gets_app.
    pose proof (step_callbacks _ _ _ _ Hs). pose proof (IH _ _ _ He). lia.
Qed.

Lemma task_gets_leaving tr :
  (task_gets tr <= length (List.filter is_task (leaving tr)))%nat.
Proof.
  induction tr as [|e tr IH]; [done |].
  change (e :: tr) with ([e] ++ tr).
  rewrite task_gets_app, leaving_app, List.filter_app, length_app.
  enough (task_gets [e] <= length (List.filter is_task (leaving [e])))%nat by lia.
  destruct e as [| |t [w|]| | |l]; unfold task_gets, leaving; simpl; lia.
Qed.

Lemma task_puts_runs_step a c c' evs :
  step a c = Some (c', evs) ->
  (length (List.filter is_task (puts evs)) + may_spawn (ctrl c')
     + (if ctrl c' is RunPut _ then 1 else 0) + count_runs (prog c')
   <= may_spawn (ctrl c) + (if ctrl c is RunPut _ then 1 else 0)
      + count_runs (prog c))%nat.
Proof.
  intros H. destruct a as [|t]; simpl in H.
  - unfold client in H.
    destruct (ctrl c) as [|w|w|w|w|w| | |[|n]| | | |] eqn:Hc; simpl in H;
      repeat match type of H with
        | match ?x with _ => _ end = _ => destruct x eqn:?; simpl in H
        end;
      simplify_eq; simpl; try lia.
    unfold count_runs. simpl. destruct a; simpl; lia.
  - destruct (workers c !! t) as [pc|] eqn:Ht; [| done].
    destruct (call t pc (pool c)) as [[[pc' p'] evs']|] eqn:Hcall; [| done].
    simplify_eq. destruct (call_fifo _ _ _ _ _ _ Hcall) as (_ & -> & _).
    simpl. lia.
Qed.

Lemma task_puts_runs_exec sched : forall c c' tr,
  exec sched c = Some (c', tr) ->
  (length (List.filter is_task (puts tr)) + may_spawn (ctrl c')
     + (if ctrl c' is RunPut _ then 1 else 0) + count_runs (prog c')
   <= may_spawn (ctrl c) + (if ctrl c is RunPut _ then 1 else 0)
      + count_runs (prog c))%nat.
Proof.
  induction sched as [|a sched IH]; intros c c' tr H; simpl in H.
  - simplify_eq. simpl. lia.
  - destruct (step a c) as [[c1 evs]|] eqn:Hs; [| done].
    destruct (exec sched c1) as [[c2 tr2]|] eqn:He; [| done].
    simplify_eq. rewrite puts_app, List.filter_app, length_app.
    pose proof (task_puts_runs_step _ _ _ _ Hs). pose proof (IH _ _ _ He). lia.
Qed.

End Callbacks.

(** X5.  No task runs twice and no callback comes from nowhere: along
    every execution of a fresh pool, the callbacks invoked plus the tasks
    workers still hold are at most the tasks taken off the queue, which
    are at most the tasks put on it, which are at most the [run] calls
    the client has begun. *)
Theorem callbacks_at_most_tasks m k calls c0 sched c tr :
  initial m k calls = Some c0 -> exec sched c0 = Some (c, tr) ->
  (callbacks tr + in_hand (workers c) <= task_gets tr)%nat /\
  (task_gets tr <= length (List.filter is_task (puts tr)))%nat /\
  (length (List.filter is_task (puts tr)) + count_runs (prog c)
   <= count_runs calls)%nat.
Proof.
  intros Hi He. rewrite initial_boot in Hi. simplify_eq. split_and!.
  - pose proof (exec_callbacks _ _ _ _ He) as H. simpl in H.
    try change (in_hand []) with 0%nat in H. lia.
  - pose proof (exec_fifo _ _ _ _ He) as Hq. simpl in Hq.
    pose proof (task_gets_leaving tr) as Hl.
    rewrite Hq, List.filter_app, length_app. lia.
  - pose proof (task_puts_runs_exec _ _ _ _ He) as H. simpl in H. lia.
Qed.

Lemma callbacks_at_most_tasks_witness :
  (callbacks [EvSpawn 0; EvPut (TaskItem failing); EvGet 0 (TaskItem failing);
              EvCallback 0 false PyNone]
   + in_hand [IdleEnter]
   <= task_gets [EvSpawn 0; EvPut (TaskItem failing);
                 EvGet 0 (TaskItem failing); EvCallback 0 false PyNone])%nat.
Proof.
  assert (exec (replicate 6 Main ++ replicate 4 (Worker 0%nat))
               (boot (pool_of 1 0) [Run failing]) =
          Some (mkConfig (mkPool (mkQueue 0 []) 1 false false [0%nat] [])
                         [IdleEnter] Ready [],
                [EvSpawn 0; EvPut (TaskItem failing);
                 EvGet 0 (TaskItem failing); EvCallback 0 false PyNone]))
    as He by (vm_compute; reflexivity).
  exact (proj1 (callbacks_at_most_tasks 1 None _ _ _ _ _ eq_refl He)).
Defined.

(** * The queue bound, and the flags *)

Section Bounds.

Lemma capacity_step a c c' evs :
  step a c = Some (c', evs) ->
  (0 < maxsize (q (pool c)) ->
   Z.of_nat (length (queue (q (pool c)))) <= maxsize (q (pool c))) ->
  (0 < maxsize (q (pool c')) ->
   Z.of_nat (length (queue (q (pool c')))) <= maxsize (q (pool c'))).
Proof.
  intros H Hcap. destruct a as [|t]; simpl in H.
  - unfold client in H.
    destruct (ctrl c) as [|w|w|w|w|w| | |[|n]| | | |]; simpl in H;
      repeat match type of H with
        | match ?x with _ => _ end = _ => destruct x eqn:?; simpl in H
        end;
      simplify_eq; simpl; try done; try (simpl; lia).
    all: match goal with E : put _ _ = Some _ |- _ =>
           unfold put, full in E;
           destruct (Z.ltb_spec 0 (maxsize (q (pool c))));
           destruct (Z.leb_spec (maxsize (q (pool c)))
                                (Z.of_nat (length (queue (q (pool c))))));
           simpl in E; simplify_eq; simpl; rewrite length_app; simpl; lia end.
  - destruct (workers c !! t) as [pc|] eqn:Ht; [| done].
    destruct (call t pc (pool c)) as [[[pc' p'] evs']|] eqn:Hcall; [| done].
    simplify_eq. destruct (call_fifo _ _ _ _ _ _ Hcall) as (Hm & _ & Hq).
    simpl. rewrite Hm. intros Hpos. specialize (Hcap Hpos).
    rewrite Hq, length_app in Hcap. lia.
Qed.

Lemma flags_step a c c' evs :
  step a c = Some (c', evs) ->
  (cancel (pool c) = true -> cancel (pool c') = true) /\
  (terminal (pool c) = true -> terminal (pool c') = true) /\
  max_num (pool c') = max_num (pool c) /\
  maxsize (q (pool c')) = maxsize (q (pool c)).
Proof.
  intros H. destruct (step_fifo _ _ _ _ H) as [Hm _].
  split_and!; try done.
  - by eapply step_gots.
  - destruct a as [|t]; simpl in H.
    + unfold client in H.
      destruct (ctrl c) as [|w|w|w|w|w| | |[|n]| | | |]; simpl in H;
        repeat match type of H with
          | match ?x with _ => _ end = _ => destruct x eqn:?; simpl in H
          end;
        by simplify_eq.
    + destruct (worker_step_frame _ _ _ _ H) as (_ & _ & -> & _). done.
  - destruct a as [|t]; simpl in H.
    + unfold client in H.
      destruct (ctrl c) as [|w|w|w|w|w| | |[|n]| | | |]; simpl in H;
        repeat match type of H with
          | match ?x with _ => _ end = _ => destruct x eqn:?; simpl in H
          end;
        by simplify_eq.
    + destruct (workers c !! t) as [pc|] eqn:Ht; [| done].
      destruct (call t pc (pool c)) as [[[pc' p'] evs']|] eqn:Hcall; [| done].
      simplify_eq. simpl.
      destruct pc as [| |[w|]|w| | | |ev| |e]; simpl in Hcall;
        repeat match type of Hcall with
          | match ?x with _ => _ end = _ => destruct x eqn:?; simpl in Hcall
          | (let '(_, _) := ?x in _) = _ => destruct x eqn:?; simpl in Hcall
          end;
        by simplify_eq.
Qed.

(** After line 100 has run and outside a [run] call that passed line 46
    before, nothing is started and nothing but [StopEvent]s is put. *)
Lemma closed_step a c c' evs :
  cancel (pool c) = true -> in_run (ctrl c) = false ->
  step a c = Some (c', evs) ->
  (cancel (pool c') = true /\ in_run (ctrl c') = false) /\
  spawns evs = 0%nat /\ forallb is_stop (puts evs) = true /\
  length (workers c') = length (workers c).
Proof.
  intros Hc Hr H. pose proof (step_gots _ _ _ _ H Hc) as Hc'.
  destruct a as [|t]; simpl in H.
  - unfold client in H.
    destruct (ctrl c) as [|w|w|w|w|w| | |[|n]| | | |]; simpl in H, Hr;
      try done;
      repeat match type of H with
        | match ?x with _ => _ end = _ => destruct x eqn:?; simpl in H
        end;
      simplify_eq; simpl in *; split_and!; try done.
    by destruct a.
  - destruct (worker_step_frame _ _ _ _ H) as (Hctrl & _ & _ & _).
    destruct (workers c !! t) as [pc|] eqn:Ht; [| done].
    destruct (call t pc (pool c)) as [[[pc' p'] evs']|] eqn:Hcall; [| done].
    simplify_eq. destruct (call_fifo _ _ _ _ _ _ Hcall) as (_ & Hp & _).
    simpl in *. rewrite Hp, length_insert.
    rewrite (call_no_spawn _ _ _ _ _ _ Hcall). done.
Qed.

End Bounds.

(** X6.  A queue bounded at construction never holds more items than its
    bound: for [max_task_num = n > 0], in every state reached the bound is
    still [n] and the queue holds at most [n] items. *)
Theorem bounded_queue_never_overfull m n calls c0 sched c tr :
  0 < n ->
  initial m (Some n) calls = Some c0 -> exec sched c0 = Some (c, tr) ->
  maxsize (q (pool c)) = n /\
  Z.of_nat (length (queue (q (pool c)))) <= n.
Proof.
  intros Hn Hi He. rewrite initial_boot in Hi. simplify_eq.
  assert (maxsize (q (pool c)) = n /\
          (0 < maxsize (q (pool c)) ->
           Z.of_nat (length (queue (q (pool c)))) <= maxsize (q (pool c))))
    as [Hm Hcap].
  { eapply (exec_invariant
              (fun c => maxsize (q (pool c)) = n /\
                        (0 < maxsize (q (pool c)) ->
                         Z.of_nat (length (queue (q (pool c))))
                         <= maxsize (q (pool c))))); [| | exact He].
    - intros a c1 c2 evs [Hm Hcap] Hs. split.
      + destruct (flags_step _ _ _ _ Hs) as (_ & _ & _ & ->). done.
      + by eapply capacity_step.
    - simpl. split; [done |]. simpl. lia. }
  split; [done |]. assert (0 < maxsize (q (pool c))) as Hpos by lia.
  specialize (Hcap Hpos). lia.
Qed.

Lemma bounded_queue_never_overfull_witness :
  Z.of_nat (length [TaskItem (action 1)]) <= 1.
Proof.
  assert (exec (replicate 6 Main)
               (boot (pool_of 1 1) [Run (action 1); Close]) =
          Some (mkConfig (mkPool (mkQueue 1 [TaskItem (action 1)])
                                 1 false false [] [])
                         [Spawned] Ready [Close],
                [EvSpawn 0; EvPut (TaskItem (action 1))])) as He
    by (vm_compute; reflexivity).
  exact (proj2 (bounded_queue_never_overfull 1 1 _ _ _ _ _
                  ltac:(lia) eq_refl He)).
Defined.

(** X7.  With an unbounded queue ([max_task_num] absent, zero or negative)
    the client thread never waits: in every state reached it can take a
    step unless it has made all its calls. *)
Theorem unbounded_client_never_blocks m k calls c0 sched c tr :
  match k with Some n => n <= 0 | None => True end ->
  initial m k calls = Some c0 -> exec sched c0 = Some (c, tr) ->
  (step Main c = None <-> ctrl c = Ready /\ prog c = []).
Proof.
  intros Hk Hi He. rewrite initial_boot in Hi. simplify_eq.
  assert (maxsize (q (pool c)) <= 0) as Hm.
  { eapply (exec_invariant (fun c => maxsize (q (pool c)) <= 0));
      [| | exact He].
    - intros a c1 c2 evs Hm Hs.
      destruct (flags_step _ _ _ _ Hs) as (_ & _ & _ & ->). done.
    - simpl. by destruct k. }
  assert (full (q (pool c)) = false) as Hfull.
  { unfold full. destruct (Z.ltb_spec 0 (maxsize (q (pool c)))); [lia | done]. }
  simpl. unfold client, put. rewrite Hfull.
  destruct (ctrl c) as [|w|w|w|w|w| | |[|n]| | | |]; simpl;
    try (split; [done | by intros [[=] _]]).
  - destruct (prog c); split; try done. by intros [_ [=]].
  - destruct (cancel (pool c)); split; try done; by intros [[=] _].
  - destruct (length (free_list (pool c)) =? 0)%nat; split; try done;
      by intros [[=] _].
  - destruct (Z.of_nat (length (generate_list (pool c))) <? max_num (pool c));
      split; try done; by intros [[=] _].
  - destruct (generate_list (pool c)); split; try done; by intros [[=] _].
Qed.

Lemma unbounded_client_never_blocks_witness :
  step Main (mkConfig (mkPool (mkQueue 0 [TaskItem (action 1)])
                              1 false false [] [])
                      [Spawned] Ready []) = None.
Proof.
  assert (exec (replicate 6 Main) (boot (pool_of 1 0) [Run (action 1)]) =
          Some (mkConfig (mkPool (mkQueue 0 [TaskItem (action 1)])
                                 1 false false [] [])
                         [Spawned] Ready [],
                [EvSpawn 0; EvPut (TaskItem (action 1))])) as He
    by (vm_compute; reflexivity).
  apply (unbounded_client_never_blocks 1 None _ _ _ _ _ I eq_refl He).
  split; reflexivity.
Defined.

(** X8.  Shutdown is final and the configuration is fixed: along every
    execution, once [cancel] is set it stays set, once [terminal] is set
    it stays set, and [max_num] and the queue bound never change. *)
Theorem flags_are_never_reset sched c c' tr :
  exec sched c = Some (c', tr) ->
  (cancel (pool c) = true -> cancel (pool c') = true) /\
  (terminal (pool c) = true -> terminal (pool c') = true) /\
  max_num (pool c') = max_num (pool c) /\
  maxsize (q (pool c')) = maxsize (q (pool c)).
Proof.
  revert c c' tr. induction sched as [|a sched IH]; intros c c' tr H;
    simpl in H.
  - by simplify_eq.
  - destruct (step a c) as [[c1 evs]|] eqn:Hs; [| done].
    destruct (exec sched c1) as [[c2 tr2]|] eqn:He; [| done].
    simplify_eq. destruct (flags_step _ _ _ _ Hs) as (H1 & H2 & H3 & H4).
    destruct (IH _ _ _ He) as (H5 & H6 & H7 & H8).
    split_and!; [tauto | tauto | congruence | congruence].
Qed.

Lemma flags_are_never_reset_witness :
  cancel (mkPool (mkQueue 0 [StopEvent]) 3 true false [] []) = true /\
  max_num (mkPool (mkQueue 0 [StopEvent]) 3 true false [] []) = 3.
Proof.
  assert (exec (replicate 2 Main)
               (mkConfig (mkPool (mkQueue 0 [StopEvent]) 3 true false [] [])
                         [] Ready [Run (action 1)]) =
          Some (mkConfig (mkPool (mkQueue 0 [StopEvent]) 3 true false [] [])
                         [] Ready [], [])) as He
    by (vm_compute; reflexivity).
  destruct (flags_are_never_reset _ _ _ _ He) as (H1 & _ & H3 & _).
  split; [exact (H1 eq_refl) | exact H3].
Defined.

(** X9.  After [close] has set [cancel], under every interleaving: no
    thread is started any more and nothing but [StopEvent]s is put on the
    queue, whatever calls the client goes on to make.  (A [run] that had
    already passed line 46 when the flag was set is a different call; the
    client is sequential, so there is none.) *)
Theorem closed_pool_starts_nothing sched : forall c c' tr,
  cancel (pool c) = true -> in_run (ctrl c) = false ->
  exec sched c = Some (c', tr) ->
  spawns tr = 0%nat /\ forallb is_stop (puts tr) = true /\
  length (workers c') = length (workers c).
Proof.
  induction sched as [|a sched IH]; intros c c' tr Hc Hr H; simpl in H.
  - by simplify_eq.
  - destruct (step a c) as [[c1 evs]|] eqn:Hs; [| done].
    destruct (exec sched c1) as [[c2 tr2]|] eqn:He; [| done].
    simplify_eq.
    destruct (closed_step _ _ _ _ Hc Hr Hs) as ([Hc1 Hr1] & H1 & H2 & H3).
    destruct (IH _ _ _ Hc1 Hr1 He) as (H4 & H5 & H6).
    rewrite spawns_app, puts_app, forallb_app, H1, H2, H4, H5.
    split_and!; [done | done | congruence].
Qed.

Lemma closed_pool_starts_nothing_witness :
  spawns [EvPut StopEvent] = 0%nat /\
  forallb is_stop (puts [EvPut StopEvent]) = true.
Proof.
  pose (c0 := mkConfig (mkPool (mkQueue 0 []) 3 true false [] [])
                       [] Ready [Run (action 1); Close]).
  assert (exec (replicate 7 Main) c0 =
          Some (mkConfig (mkPool (mkQueue 0 [StopEvent]) 3 true false [] [])
                         [] Ready [], [EvPut StopEvent])) as He
    by (vm_compute; reflexivity).
  destruct (closed_pool_starts_nothing _ c0 _ _ eq_refl eq_refl He)
    as (H1 & H2 & _).
  split; [exact H1 | exact H2].
Defined.

(** * [terminate] as a busy loop *)

Section Spin.

Lemma solo_snoc k c c1 tr c2 evs :
  solo k c = Some (c1, tr) -> client c1 = Some (c2, evs) ->
  solo (S k) c = Some (c2, tr ++ evs).
Proof.
  unfold solo. intros H1 H2.
  rewrite replicate_S_end, exec_app, H1. simpl. rewrite H2.
  by rewrite app_nil_r.
Qed.

Lemma unbounded_not_full qu : maxsize qu <= 0 -> full qu = false.
Proof.
  intros H. unfold full. destruct (Z.ltb_spec 0 (maxsize qu)); [lia | done].
Qed.

(** Lines 112-113 running alone while a worker stays listed. *)
Lemma terminate_loop_solo n : forall p ws rest,
  generate_list p <> [] -> maxsize (q p) <= 0 ->
  solo (2 * n) (mkConfig p ws TermLoop rest) =
  Some (mkConfig
          (set_q (mkQueue (maxsize (q p)) (queue (q p) ++ replicate n StopEvent)) p)
          ws TermLoop rest,
        replicate n (EvPut StopEvent)).
Proof.
  induction n as [|n IH]; intros p ws rest Hgl Hm.
  - destruct p as [[mx l] ? ? ? ? ?]. unfold solo, set_q; simpl.
    by rewrite app_nil_r.
  - replace (2 * S n)%nat with (S (S (2 * n))) by lia.
    unfold solo in *. cbn [replicate exec step].
    unfold client at 1; cbn [ctrl pool workers prog].
    destruct (generate_list p) as [|t0 gl] eqn:Hg; [done |].
    unfold client at 1; cbn [ctrl pool workers prog]. unfold put.
    rewrite (unbounded_not_full _ Hm).
    rewrite IH.
    + destruct p as [[mx l] ? ? ? ? ?]. unfold set_q; simpl.
      by rewrite <- app_assoc.
    + destruct p; simpl in *. by rewrite Hg.
    + by destruct p as [[mx l] ? ? ? ? ?].
Qed.

End Spin.

(** X10.  [terminate] is a busy loop: called while [generate_list] is
    non-empty on a pool with an unbounded queue, and running alone, it
    never returns; after [2 + 2n] steps it is back at the test of line 112
    having put [n] [StopEvent]s, and after one more step it is at the
    [put] of line 113, for every [n].  Only a worker removing itself can
    end the loop. *)
Theorem terminate_spins_while_workers_listed (c : Config) rest n :
  ctrl c = Ready -> prog c = Terminate :: rest ->
  generate_list (pool c) <> [] -> maxsize (q (pool c)) <= 0 ->
  let p := set_q (mkQueue (maxsize (q (pool c)))
                          (queue (q (pool c)) ++ replicate n StopEvent))
                 (set_terminal true (pool c)) in
  solo (2 + 2 * n) c =
    Some (mkConfig p (workers c) TermLoop rest, replicate n (EvPut StopEvent)) /\
  solo (3 + 2 * n) c =
    Some (mkConfig p (workers c) TermPut rest, replicate n (EvPut StopEvent)).
Proof.
  destruct c as [p0 ws pc pr]. simpl. intros -> -> Hgl Hm.
  pose proof (terminate_loop_solo n (set_terminal true p0) ws rest) as H.
  assert (solo (2 + 2 * n)
            (mkConfig p0 ws Ready (Terminate :: rest)) =
          Some (mkConfig
                  (set_q (mkQueue (maxsize (q p0))
                                  (queue (q p0) ++ replicate n StopEvent))
                         (set_terminal true p0))
                  ws TermLoop rest, replicate n (EvPut StopEvent))) as H2.
  { unfold solo in *. cbn [Nat.add replicate exec step client ctrl prog pool
                            workers enter].
    rewrite H; [done | by destruct p0 | by destruct p0]. }
  split; [exact H2 |].
  change (3 + 2 * n)%nat with (S (2 + 2 * n)).
  rewrite <- (app_nil_r (replicate n (EvPut StopEvent))).
  eapply solo_snoc; [exact H2 |].
  unfold client; cbn [ctrl pool workers prog].
  destruct p0 as [[mx l] m0 cn tm gl fl]. simpl in *.
  by destruct gl.
Qed.

Lemma terminate_spins_while_workers_listed_witness :
  solo 8 (mkConfig (mkPool (mkQueue 0 []) 1 false false [0%nat] [])
                   [Busy (action 1)] Ready [Terminate]) =
  Some (mkConfig (mkPool (mkQueue 0 [StopEvent; StopEvent; StopEvent])
                         1 false true [0%nat] [])
                 [Busy (action 1)] TermLoop [],
        [EvPut StopEvent; EvPut StopEvent; EvPut StopEvent]).
Proof.
  refine (proj1 (terminate_spins_while_workers_listed
                   (mkConfig (mkPool (mkQueue 0 []) 1 false false [0%nat] [])
                             [Busy (action 1)] Ready [Terminate])
                   [] 3 eq_refl eq_refl _ _)).
  - simpl. discriminate.
  - simpl. lia.
Defined.

(** * A worker running by itself *)

Section WorkerAlone.

Lemma list_remove_snoc t l : t ∉ l -> list_remove t (l ++ [t]) = Some l.
Proof.
  induction l as [|y l IH]; intros Hn; simpl.
  - by rewrite decide_True.
  - rewrite decide_False by (intros ->; apply Hn; left).
    rewrite IH; [done |]. intros ?. apply Hn. by right.
Qed.

Lemma worker_step t pc p ws ct pr pc' p' evs :
  ws !! t = Some pc -> call t pc p = Some (pc', p', evs) ->
  step (Worker t) (mkConfig p ws ct pr) =
  Some (mkConfig p' (<[t := pc']> ws) ct pr, evs).
Proof. intros Ht Hc. simpl. by rewrite Ht, Hc. Qed.

Lemma exec_cons a sched c c1 evs c2 tr :
  step a c = Some (c1, evs) -> exec sched c1 = Some (c2, tr) ->
  exec (a :: sched) c = Some (c2, evs ++ tr).
Proof. intros Hs He. simpl. by rewrite Hs, He. Qed.

Lemma lookup_insert_again (ws : list wpc) t pc pc' :
  ws !! t = Some pc -> <[t := pc']> ws !! t = Some pc'.
Proof. intros H. apply list_lookup_insert_eq. by eapply lookup_lt_Some. Qed.

(** Lines 71-92 once round: the worker runs the task it holds and takes
    the next item. *)
Lemma task_round t w x mx items m cn gl fl ws ct pr :
  ws !! t = Some (LoopTest (TaskItem w)) -> benign t w -> t ∉ fl ->
  exec (replicate 6 (Worker t))
       (mkConfig (mkPool (mkQueue mx (x :: items)) m cn false gl fl) ws ct pr) =
  Some (mkConfig (mkPool (mkQueue mx items) m cn false gl fl)
                 (<[t := LoopTest x]> ws) ct pr,
        fst (execute t w) ++ [EvGet t x]).
Proof.
  intros Ht Hb Hfl. unfold benign in Hb.
  destruct (execute t w) as [evs r] eqn:Hex. simpl in Hb. subst r.
  cbn [replicate exec fst].
  erewrite worker_step; [cbv beta iota | exact Ht | reflexivity].
  erewrite worker_step;
    [cbv beta iota | by eapply lookup_insert_again
     | simpl; rewrite Hex; reflexivity].
  erewrite worker_step;
    [cbv beta iota
     | eapply lookup_insert_again; by eapply lookup_insert_again
     | reflexivity].
  erewrite worker_step;
    [cbv beta iota
     | do 2 eapply lookup_insert_again; by eapply lookup_insert_again
     | reflexivity].
  erewrite worker_step;
    [cbv beta iota
     | do 3 eapply lookup_insert_again; by eapply lookup_insert_again
     | reflexivity].
  erewrite worker_step;
    [cbv beta iota
     | do 4 eapply lookup_insert_again; by eapply lookup_insert_again
     | simpl; rewrite (list_remove_snoc _ _ Hfl); reflexivity].
  rewrite !list_insert_insert_eq. simpl. rewrite ?app_nil_r. reflexivity.
Qed.

(** The worker holds [w0]; [ws] and then a [StopEvent] are queued. *)
Lemma drain_in_hand t mx rest m cn gl l fl ct pr :
  t ∉ fl -> list_remove t gl = Some l ->
  forall ws w0 wsT,
    wsT !! t = Some (LoopTest (TaskItem w0)) ->
    benign t w0 -> Forall (benign t) ws ->
    exec (replicate (6 * S (length ws) + 1) (Worker t))
         (mkConfig (mkPool (mkQueue mx ((TaskItem <$> ws) ++ StopEvent :: rest))
                           m cn false gl fl) wsT ct pr) =
    Some (mkConfig (mkPool (mkQueue mx rest) m cn false l fl)
                   (<[t := Finished]> wsT) ct pr,
          fst (execute t w0) ++ drain_trace t ws).
Proof.
  intros Hfl Hgl ws. induction ws as [|w1 ws IH]; intros w0 wsT Ht Hb Hall.
  - change (6 * S (length []) + 1)%nat with (6 + 1)%nat.
    rewrite replicate_add, exec_app.
    change ((TaskItem <$> []) ++ StopEvent :: rest) with (StopEvent :: rest).
    rewrite (task_round _ _ _ _ _ _ _ _ _ _ _ _ Ht Hb Hfl).
    cbn [replicate exec].
    erewrite worker_step;
      [cbv beta iota | by eapply lookup_insert_again
       | simpl; rewrite Hgl; reflexivity].
    rewrite list_insert_insert_eq. simpl. by rewrite <- app_assoc.
  - replace (6 * S (length (w1 :: ws)) + 1)%nat
      with (6 + (6 * S (length ws) + 1))%nat by (simpl; lia).
    rewrite replicate_add, exec_app, fmap_cons, <- app_comm_cons.
    rewrite (task_round _ _ _ _ _ _ _ _ _ _ _ _ Ht Hb Hfl).
    apply Forall_cons in Hall as [Hb1 Hall].
    rewrite (IH w1 (<[t := LoopTest (TaskItem w1)]> wsT));
      [| by eapply lookup_insert_again | done | done].
    rewrite list_insert_insert_eq. simpl. by rewrite <- app_assoc.
Qed.

End WorkerAlone.

(** X11.  Under the [terminal] flag a worker finishes the task it is
    running and stops without touching the queue: from the moment it is
    busy with a task that leaves [call] running, five steps of its own
    take it through line 89 to the end of [call]; it has invoked what the
    task invokes, taken nothing off the queue, left [free_list] as it was
    and removed itself from [generate_list]. *)
Theorem worker_stops_after_task_when_terminal (c : Config) t w :
  wf c -> workers c !! t = Some (Busy w) ->
  terminal (pool c) = true -> benign t w ->
  exists l,
    list_remove t (generate_list (pool c)) = Some l /\
    (t ∉ l) /\
    exec (replicate 5 (Worker t)) c =
    Some (mkConfig (set_generate_list l (pool c))
                   (<[t := Finished]> (workers c)) (ctrl c) (prog c),
          fst (execute t w) ++ [EvRemove t]).
Proof.
  intros Hwf Ht Hter Hb.
  pose proof (proj1 (books_in_gl _ _ _ _ _ Hwf Ht) ) as Hg.
  pose proof (books_in_fl _ _ _ _ _ Hwf Ht) as Hf.
  destruct (list_remove_elem t (generate_list (pool c))) as [l Hl].
  { apply (proj2 (books_in_gl _ _ _ _ _ Hwf Ht)). done. }
  assert (t ∉ free_list (pool c)) as Hfl by (intros Hin; by apply Hf in Hin).
  exists l. split; [done |]. split.
  { destruct Hwf as (Hnd & _).
    destruct (list_remove_Some _ _ _ Hl Hnd) as [_ Hm]. rewrite Hm. tauto. }
  destruct c as [[qu m cn tm gl fl] ws ct pr].
  simpl in Ht, Hter, Hl, Hfl. subst tm.
  unfold benign in Hb. destruct (execute t w) as [evs r] eqn:Hex.
  simpl in Hb. subst r. cbn [replicate exec fst].
  erewrite worker_step;
    [cbv beta iota | exact Ht | simpl; rewrite Hex; reflexivity].
  erewrite worker_step;
    [cbv beta iota | by eapply lookup_insert_again | reflexivity].
  erewrite worker_step;
    [cbv beta iota
     | eapply lookup_insert_again; by eapply lookup_insert_again
     | reflexivity].
  erewrite worker_step;
    [cbv beta iota
     | do 2 eapply lookup_insert_again; by eapply lookup_insert_again
     | simpl; rewrite (list_remove_snoc _ _ Hfl); reflexivity].
  erewrite worker_step;
    [cbv beta iota
     | do 3 eapply lookup_insert_again; by eapply lookup_insert_again
     | simpl; rewrite Hl; reflexivity].
  rewrite !list_insert_insert_eq. simpl. rewrite ?app_nil_r. reflexivity.
Qed.

Lemma worker_stops_after_task_when_terminal_witness :
  exec (replicate 5 (Worker 0%nat))
       (mkConfig (mkPool (mkQueue 0 [StopEvent; TaskItem (action 2)])
                         1 false true [0%nat] [])
                 [Busy failing] TermLoop []) =
  Some (mkConfig (mkPool (mkQueue 0 [StopEvent; TaskItem (action 2)])
                         1 false true [] [])
                 [Finished] TermLoop [],
        [EvCallback 0 false PyNone; EvRemove 0]).
Proof.
  pose (c := mkConfig (mkPool (mkQueue 0 [StopEvent; TaskItem (action 2)])
                              1 false true [0%nat] [])
                      [Busy failing] TermLoop []).
  assert (wf c) as Hwf.
  { unfold wf, books; simpl. split_and!.
    - apply NoDup_singleton.
    - apply NoDup_nil_2.
    - intros t. rewrite list_elem_of_singleton. split.
      + intros ->. by exists (Busy failing).
      + intros (pc & Hpc & _). destruct t as [|t]; [done |].
        by destruct t.
    - intros t. split; [by intros ?%elem_of_nil |].
      intros (pc & Hpc & Hi). destruct t as [|t]; simpl in Hpc.
      + by simplify_eq.
      + by destruct t. }
  destruct (worker_stops_after_task_when_terminal c 0%nat failing Hwf
              eq_refl eq_refl eq_refl) as (l & Hl & _ & He).
  vm_compute in Hl. injection Hl as <-. exact He.
Defined.

(** X12.  A worker left to itself drains the queue in order: starting at
    its first [get] with the tasks [ws] and then a [StopEvent] queued
    (tasks that leave [call] running, [terminal] unset), [6 |ws| + 2] steps
    of its own bring it to the end of [call].  It has taken the tasks in
    queue order, run each one once right after taking it and invoked its
    callback if it has one, taken exactly one [StopEvent], left the rest of
    the queue alone, and removed itself from [generate_list]. *)
Theorem worker_drains_queue (c : Config) t ws rest :
  wf c -> workers c !! t = Some FirstGet ->
  terminal (pool c) = false ->
  queue (q (pool c)) = (TaskItem <$> ws) ++ StopEvent :: rest ->
  Forall (benign t) ws ->
  exists l,
    list_remove t (generate_list (pool c)) = Some l /\
    exec (replicate (6 * length ws + 2) (Worker t)) c =
    Some (mkConfig
            (set_generate_list l
               (set_q (mkQueue (maxsize (q (pool c))) rest) (pool c)))
            (<[t := Finished]> (workers c)) (ctrl c) (prog c),
          drain_trace t ws).
Proof.
  intros Hwf Ht Hter Hq Hall.
  pose proof (books_in_fl _ _ _ _ _ Hwf Ht) as Hf.
  destruct (list_remove_elem t (generate_list (pool c))) as [l Hl].
  { apply (proj2 (books_in_gl _ _ _ _ _ Hwf Ht)). done. }
  assert (t ∉ free_list (pool c)) as Hfl by (intros Hin; by apply Hf in Hin).
  exists l. split; [done |].
  destruct c as [[[mx items] m cn tm gl fl] ws0 ct pr].
  simpl in Ht, Hter, Hq, Hl, Hfl. subst tm items. destruct ws as [|w ws].
  - change (6 * length (@nil Task) + 2)%nat with 2%nat. cbn [replicate exec].
    erewrite worker_step; [cbv beta iota | exact Ht | reflexivity].
    erewrite worker_step;
      [cbv beta iota | by eapply lookup_insert_again
       | simpl; rewrite Hl; reflexivity].
    rewrite list_insert_insert_eq. reflexivity.
  - replace (6 * length (w :: ws) + 2)%nat
      with (S (6 * S (length ws) + 1)) by (simpl; lia).
    apply Forall_cons in Hall as [Hb Hall].
    cbn [replicate exec]. rewrite fmap_cons, <- app_comm_cons.
    erewrite worker_step; [cbv beta iota | exact Ht | reflexivity].
    cbn [set_q q max_num cancel terminal generate_list free_list maxsize queue].
    rewrite (drain_in_hand t mx rest m cn gl l fl ct pr Hfl Hl ws w
               (<[t := LoopTest (TaskItem w)]> ws0));
      [| by eapply lookup_insert_again | done | done].
    rewrite list_insert_insert_eq. reflexivity.
Qed.

Lemma worker_drains_queue_witness :
  exec (replicate 14 (Worker 0%nat))
       (mkConfig (mkPool (mkQueue 0 [TaskItem failing; TaskItem (action 2);
                                     StopEvent; StopEvent])
                         1 true false [0%nat] [])
                 [FirstGet] Ready []) =
  Some (mkConfig (mkPool (mkQueue 0 [StopEvent]) 1 true false [] [])
                 [Finished] Ready [],
        [EvGet 0 (TaskItem failing); EvCallback 0 false PyNone;
         EvGet 0 (TaskItem (action 2)); EvGet 0 StopEvent; EvRemove 0]).
Proof.
  pose (c := mkConfig (mkPool (mkQueue 0 [TaskItem failing; TaskItem (action 2);
                                          StopEvent; StopEvent])
                              1 true false [0%nat] [])
                      [FirstGet] Ready []).
  assert (wf c) as Hwf.
  { unfold wf, books; simpl. split_and!.
    - apply NoDup_singleton.
    - apply NoDup_nil_2.
    - intros t. rewrite list_elem_of_singleton. split.
      + intros ->. by exists FirstGet.
      + intros (pc & Hpc & _). destruct t as [|t]; [done |].
        by destruct t.
    - intros t. split; [by intros ?%elem_of_nil |].
      intros (pc & Hpc & Hi). destruct t as [|t]; simpl in Hpc.
      + by simplify_eq.
      + by destruct t. }
  destruct (worker_drains_queue c 0%nat [failing; action 2] [StopEvent] Hwf
              eq_refl eq_refl eq_refl) as (l & Hl & He).
  { repeat constructor. }
  vm_compute in Hl. injection Hl as <-. exact He.
Defined.

(** * A dead worker and [terminate] *)

Section DeadWorker.

Lemma died_stays t e a c c' evs :
  workers c !! t = Some (Died e) -> step a c = Some (c', evs) ->
  workers c' !! t = Some (Died e).
Proof.
  intros Ht H. destruct a as [|t0]; simpl in H.
  - unfold client in H.
    destruct (ctrl c) as [|w|w|w|w|w| | |[|n]| | | |]; simpl in H;
      repeat match type of H with
        | match ?x with _ => _ end = _ => destruct x eqn:?; simpl in H
        end;
      simplify_eq; simpl; try done.
    by apply lookup_app_l_Some.
  - destruct (workers c !! t0) as [pc|] eqn:Ht0; [| done].
    destruct (call t0 pc (pool c)) as [[[pc' p'] evs']|] eqn:Hc; [| done].
    simplify_eq. simpl.
    destruct (decide (t0 = t)) as [->|Hne].
    + by simplify_eq.
    + by rewrite list_lookup_insert_ne.
Qed.

Lemma wf_single_worker qu m cn tm pc ct pr :
  registered pc = true -> idle pc = false ->
  wf (mkConfig (mkPool qu m cn tm [0%nat] []) [pc] ct pr).
Proof.
  intros Hr Hi. unfold wf, books; simpl. split_and!.
  - apply NoDup_singleton.
  - apply NoDup_nil_2.
  - intros t. rewrite list_elem_of_singleton. split.
    + intros ->. by exists pc.
    + intros (pc' & Hpc & _). destruct t as [|t]; [done |]. by destruct t.
  - intros t. split; [by intros ?%elem_of_nil |].
    intros (pc' & Hpc & Hi'). destruct t as [|t]; simpl in Hpc.
    + simplify_eq. congruence.
    + by destruct t.
Qed.


End DeadWorker.





(** X13.  A worker killed by its task stays in [generate_list] for ever,
    so a later [terminate()] never returns: whatever the interleaving, the
    call never reaches the [clear] of line 115, the dead worker is still
    listed, and the client is still inside [terminate] (or has not yet
    entered it). *)
Theorem terminate_never_returns_after_worker_death
    (c0 : Config) t e rest sched c1 tr :
  wf c0 -> workers c0 !! t = Some (Died e) ->
  ctrl c0 = Ready -> prog c0 = Terminate :: rest ->
  exec sched c0 = Some (c1, tr) ->
  workers c1 !! t = Some (Died e) /\
  t ∈ generate_list (pool c1) /\
  ((ctrl c1 = Ready /\ prog c1 = Terminate :: rest) \/
   (prog c1 = rest /\
    (ctrl c1 = TermSet \/ ctrl c1 = TermLoop \/ ctrl c1 = TermPut))) /\
  ~ (ctrl c1 = Ready /\ prog c1 = rest).
Proof.
  intros Hwf Ht Hc Hp He.
  assert (wf c1 /\ workers c1 !! t = Some (Died e) /\
          ((ctrl c1 = Ready /\ prog c1 = Terminate :: rest) \/
           (prog c1 = rest /\
            (ctrl c1 = TermSet \/ ctrl c1 = TermLoop \/ ctrl c1 = TermPut))))
    as (Hwf1 & Ht1 & Hphase).
  { eapply (exec_invariant
              (fun c => wf c /\ workers c !! t = Some (Died e) /\
                 ((ctrl c = Ready /\ prog c = Terminate :: rest) \/
                  (prog c = rest /\
                   (ctrl c = TermSet \/ ctrl c = TermLoop \/ ctrl c = TermPut)))));
      [| | exact He]; [| by eauto].
    intros a c c' evs (Hw & Hd & Hph) Hs.
    split; [by eapply wf_step |]. split; [by eapply died_stays |].
    assert (generate_list (pool c) <> []) as Hne.
    { intros Hnil.
      pose proof (proj2 (books_in_gl _ _ _ _ _ Hw Hd) eq_refl) as Hin.
      rewrite Hnil in Hin. by apply elem_of_nil in Hin. }
    destruct a as [|t0].
    - simpl in Hs. unfold client in Hs.
      destruct Hph as [[Hc' Hp']|[Hp' [Hc'|[Hc'|Hc']]]]; rewrite Hc' in Hs;
        simpl in Hs.
      + rewrite Hp' in Hs. simplify_eq. simpl. right. eauto.
      + simplify_eq. simpl. right. eauto.
      + destruct (generate_list (pool c)); [done |]. simplify_eq. simpl.
        right. eauto.
      + destruct (put StopEvent (q (pool c))); [| done]. simplify_eq. simpl.
        right. eauto.
    - destruct (worker_step_frame _ _ _ _ Hs) as (-> & -> & _ & _). done. }
  split_and!; try done.
  - by apply (proj2 (books_in_gl _ _ _ _ _ Hwf1 Ht1)).
  - intros [Hr Hpr].
    destruct Hphase as [[_ Hp']|[_ [Hc'|[Hc'|Hc']]]]; try congruence.
    rewrite Hpr in Hp'. apply (f_equal length) in Hp'. simpl in Hp'. lia.
Qed.

Lemma terminate_never_returns_after_worker_death_witness :
  ~ (ctrl (mkConfig (mkPool (mkQueue 0 [StopEvent; StopEvent])
                            1 false true [0%nat] [])
                    [Died SystemExit] TermLoop []) = Ready /\
     prog (mkConfig (mkPool (mkQueue 0 [StopEvent; StopEvent])
                            1 false true [0%nat] [])
                    [Died SystemExit] TermLoop []) = []).
Proof.
  pose (c0 := mkConfig (mkPool (mkQueue 0 []) 1 false false [0%nat] [])
                       [Died SystemExit] Ready [Terminate]).
  assert (exec (replicate 6 Main) c0 =
          Some (mkConfig (mkPool (mkQueue 0 [StopEvent; StopEvent])
                                 1 false true [0%nat] [])
                         [Died SystemExit] TermLoop [],
                [EvPut StopEvent; EvPut StopEvent])) as He
    by (vm_compute; reflexivity).
  refine (proj2 (proj2 (proj2
            (terminate_never_returns_after_worker_death
               c0 0%nat SystemExit [] _ _ _ _ eq_refl eq_refl eq_refl He)))).
  by apply wf_single_worker.
Defined.

(** * One [StopEvent], one worker *)

Section StopLast.

Lemma gots_of_app t tr1 tr2 :
  gots_of t (tr1 ++ tr2) = gots_of t tr1 ++ gots_of t tr2.
Proof. unfold gots_of. apply omap_app. Qed.

Lemma execute_no_gots t0 w t : gots_of t (fst (execute t0 w)) = [].
Proof.
  unfold execute. destruct (try_func w) as [[s r]|]; [| done].
  by destruct (try_callback w s r) as [[] ?].
Qed.

(** What one step lets worker [t] take: nothing, a task, or a
    [StopEvent], after which it is done. *)
Lemma step_gots_of a c c' evs t :
  step a c = Some (c', evs) ->
  gots_of t evs = [] \/
  (exists w, gots_of t evs = [TaskItem w]) \/
  (gots_of t evs = [StopEvent] /\
   exists pc, workers c' !! t = Some pc /\ done_getting pc = true).
Proof.
  intros H. destruct a as [|t0]; simpl in H.
  - left. unfold client in H.
    destruct (ctrl c) as [|w|w|w|w|w| | |[|n]| | | |]; simpl in H;
      repeat match type of H with
        | match ?x with _ => _ end = _ => destruct x eqn:?; simpl in H
        end;
      by simplify_eq.
  - destruct (workers c !! t0) as [pc|] eqn:Ht0; [| done].
    destruct (call t0 pc (pool c)) as [[[pc' p'] evs']|] eqn:Hc; [| done].
    simplify_eq.
    assert (t0 < length (workers c))%nat as Hlt by (by eapply lookup_lt_Some).
    destruct pc as [| |[w|]|w| | | |ev| |e]; simpl in Hc;
      repeat match type of Hc with
        | match ?x with _ => _ end = _ => destruct x eqn:?; simpl in Hc
        | (let '(_, _) := ?x in _) = _ => destruct x eqn:?; simpl in Hc
        end;
      simplify_eq; simpl; try (by left);
      try (pose proof (execute_no_gots t0 w t) as Hn;
           match goal with E : execute _ _ = _ |- _ => rewrite E in Hn end;
           by left).
    all: destruct (decide (t0 = t)) as [->|Hne]; [| by left].
    all: match goal with i : item |- _ => destruct i as [w'|] end;
      [right; left; by eexists |].
    all: right; right; split; [done |]; eexists; split;
      [by apply list_lookup_insert_eq | done].
Qed.

Lemma done_step a c c' evs t pc :
  workers c !! t = Some pc -> done_getting pc = true ->
  step a c = Some (c', evs) ->
  gots_of t evs = [] /\
  exists pc', workers c' !! t = Some pc' /\ done_getting pc' = true.
Proof.
  intros Ht Hd H. destruct a as [|t0]; simpl in H.
  - unfold client in H.
    destruct (ctrl c) as [|w|w|w|w|w| | |[|n]| | | |]; simpl in H;
      repeat match type of H with
        | match ?x with _ => _ end = _ => destruct x eqn:?; simpl in H
        end;
      simplify_eq; simpl; (split; [done |]); try (by exists pc).
    exists pc. split; [by apply lookup_app_l_Some | done].
  - destruct (workers c !! t0) as [pc0|] eqn:Ht0; [| done].
    destruct (call t0 pc0 (pool c)) as [[[pc' p'] evs']|] eqn:Hc; [| done].
    simplify_eq.
    assert (t0 < length (workers c))%nat as Hlt by (by eapply lookup_lt_Some).
    destruct (decide (t0 = t)) as [->|Hne].
    + simplify_eq. simpl. rewrite list_lookup_insert_eq by done.
      destruct pc as [| |[w|]|w| | | |[w|]| |e]; simpl in Hd, Hc; try done;
        repeat match type of Hc with
          | match ?x with _ => _ end = _ => destruct x eqn:?; simpl in Hc
          end;
        simplify_eq; split; try done; by eexists.
    + simpl. rewrite list_lookup_insert_ne by done. split; [| by exists pc].
      destruct (step_gots_of (Worker t0) c
                  (mkConfig p' (<[t0 := pc']> (workers c)) (ctrl c) (prog c))
                  evs t) as [Hn|[[w Hn]|[Hn _]]]; [| done | |].
      * simpl. by rewrite Ht0, Hc.
      * exfalso. clear -Hn Hc Hne.
        destruct pc0 as [| |[w0|]|w0| | | |ev| |e0]; simpl in Hc;
          repeat match type of Hc with
            | match ?x with _ => _ end = _ => destruct x eqn:?; simpl in Hc
            | (let '(_, _) := ?x in _) = _ => destruct x eqn:?; simpl in Hc
            end;
          simplify_eq; simpl in Hn; try done;
          try (rewrite decide_False in Hn by done; done).
        all: pose proof (execute_no_gots t0 w0 t) as Hn';
          match goal with E : execute _ _ = _ |- _ => rewrite E in Hn' end;
          simpl in Hn'; congruence.
      * exfalso. clear -Hn Hc Hne.
        destruct pc0 as [| |[w0|]|w0| | | |ev| |e0]; simpl in Hc;
          repeat match type of Hc with
            | match ?x with _ => _ end = _ => destruct x eqn:?; simpl in Hc
            | (let '(_, _) := ?x in _) = _ => destruct x eqn:?; simpl in Hc
            end;
          simplify_eq; simpl in Hn; try done;
          try (rewrite decide_False in Hn by done; done).
        all: pose proof (execute_no_gots t0 w0 t) as Hn';
          match goal with E : execute _ _ = _ |- _ => rewrite E in Hn' end;
          simpl in Hn'; congruence.
Qed.

Lemma done_exec sched t : forall c c' tr pc,
  workers c !! t = Some pc -> done_getting pc = true ->
  exec sched c = Some (c', tr) -> gots_of t tr = [].
Proof.
  induction sched as [|a sched IH]; intros c c' tr pc Ht Hd H; simpl in H.
  - by simplify_eq.
  - destruct (step a c) as [[c1 evs]|] eqn:Hs; [| done].
    destruct (exec sched c1) as [[c2 tr2]|] eqn:He; [| done].
    simplify_eq.
    destruct (done_step _ _ _ _ _ _ Ht Hd Hs) as (Hn & pc' & Ht' & Hd').
    rewrite gots_of_app, Hn. simpl. by eapply IH.
Qed.

End StopLast.

(** X14.  A [StopEvent] stops the worker that takes it: along every
    execution, from any state, the items a given worker takes off the
    queue are tasks followed by at most one [StopEvent], which is the last
    item that worker ever takes. *)
Theorem stop_event_is_last_item_taken sched t : forall c c' tr,
  exec sched c = Some (c', tr) -> stop_only_last (gots_of t tr) = true.
Proof.
  induction sched as [|a sched IH]; intros c c' tr H; simpl in H.
  - by simplify_eq.
  - destruct (step a c) as [[c1 evs]|] eqn:Hs; [| done].
    destruct (exec sched c1) as [[c2 tr2]|] eqn:He; [| done].
    simplify_eq. rewrite gots_of_app.
    destruct (step_gots_of _ _ _ _ t Hs)
      as [Hn|[[w Hn]|[Hn (pc & Hpc & Hd)]]]; rewrite Hn; simpl.
    + by eapply IH.
    + by eapply IH.
    + by rewrite (done_exec _ _ _ _ _ _ Hpc Hd He).
Qed.

Lemma stop_event_is_last_item_taken_witness :
  stop_only_last
    (gots_of 0 [EvGet 0 (TaskItem failing); EvCallback 0 false PyNone;
                EvGet 0 (TaskItem (action 2)); EvGet 0 StopEvent;
                EvRemove 0]) = true.
Proof.
  assert (exec (replicate 14 (Worker 0%nat))
            (mkConfig (mkPool (mkQueue 0 [TaskItem failing; TaskItem (action 2);
                                          StopEvent; StopEvent])
                              1 true false [0%nat] [])
                      [FirstGet] Ready []) =
          Some (mkConfig (mkPool (mkQueue 0 [StopEvent]) 1 true false [] [])
                         [Finished] Ready [],
                [EvGet 0 (TaskItem failing); EvCallback 0 false PyNone;
                 EvGet 0 (TaskItem (action 2)); EvGet 0 StopEvent;
                 EvRemove 0])) as He
    by (vm_compute; reflexivity).
  exact (stop_event_is_last_item_taken _ 0%nat _ _ _ He).
Defined.

(** * Reusing one thread *)

Section Reuse.

Lemma call_busy_benign t w p :
  benign t w -> call t (Busy w) p = Some (IdleEnter, p, fst (execute t w)).
Proof.
  unfold benign. intros Hb. simpl.
  destruct (execute t w) as [evs r]. simpl in Hb. by subst r.
Qed.

Ltac worker_steps :=
  repeat (erewrite worker_step;
          [cbv beta iota
          | reflexivity
          | first [reflexivity | by apply call_busy_benign]]).

Lemma first_task m w rest :
  0 < m -> benign 0 w ->
  exec (replicate 6 Main ++ replicate 6 (Worker 0%nat))
       (boot (pool_of m 0) (Run w :: rest)) =
  Some (waiting m rest, EvSpawn 0 :: serve_trace 0 w).
Proof.
  intros Hm Hb. rewrite exec_app.
  assert (exec (replicate 6 Main) (boot (pool_of m 0) (Run w :: rest)) =
          Some (mkConfig (mkPool (mkQueue 0 [TaskItem w]) m false false [] [])
                         [Spawned] Ready rest,
                [EvSpawn 0; EvPut (TaskItem w)])) as ->.
  { cbn [replicate exec step client ctrl prog pool workers enter boot pool_of
         cancel free_list generate_list max_num q length Nat.eqb
         generate_thread app].
    change (Z.of_nat 0) with 0. rewrite (proj2 (Z.ltb_lt 0 m) Hm).
    reflexivity. }
  cbn [replicate exec]. worker_steps.
  cbn [app]. rewrite !app_nil_r. reflexivity.
Qed.

Lemma next_task m w rest :
  benign 0 w ->
  exec (replicate 4 Main ++ replicate 6 (Worker 0%nat))
       (waiting m (Run w :: rest)) =
  Some (waiting m rest, serve_trace 0 w).
Proof.
  intros Hb. rewrite exec_app.
  assert (exec (replicate 4 Main) (waiting m (Run w :: rest)) =
          Some (mkConfig (mkPool (mkQueue 0 [TaskItem w]) m false false
                                 [0%nat] [0%nat])
                         [IdleGet] Ready rest,
                [EvPut (TaskItem w)])) as -> by reflexivity.
  cbn [replicate exec]. worker_steps.
  cbn [app]. rewrite !app_nil_r. reflexivity.
Qed.

Lemma further_tasks m rest : forall ws,
  Forall (benign 0%nat) ws ->
  exec (concat (replicate (length ws)
                  (replicate 4 Main ++ replicate 6 (Worker 0%nat))))
       (waiting m ((Run <$> ws) ++ rest)) =
  Some (waiting m rest, concat (map (serve_trace 0) ws)).
Proof.
  induction ws as [|w ws IH]; intros Hall; [reflexivity |].
  apply Forall_cons in Hall as [Hb Hall].
  change (length (w :: ws)) with (S (length ws)).
  rewrite replicate_S, concat_cons, exec_app, fmap_cons, <- app_comm_cons.
  rewrite (next_task _ _ _ Hb), (IH Hall). reflexivity.
Qed.

Lemma last_call m :
  exec (replicate 6 Main ++ replicate 3 (Worker 0%nat)) (waiting m [Close]) =
  Some (mkConfig (mkPool (mkQueue 0 [StopEvent]) m true false [] [])
                 [Finished] Ready [],
        [EvPut StopEvent; EvPut StopEvent; EvGet 0 StopEvent; EvRemove 0]).
Proof. reflexivity. Qed.

(** The next [run] made too early: the first task is finished, but the
    worker has not yet entered [free_list] (line 122). *)
Lemma early_run m w w2 :
  2 <= m -> benign 0 w ->
  exec (replicate 6 Main ++ replicate 4 (Worker 0%nat) ++ replicate 6 Main)
       (boot (pool_of m 0) [Run w; Run w2]) =
  Some (mkConfig (mkPool (mkQueue 0 [TaskItem w2]) m false false [0%nat] [])
                 [IdleEnter; Spawned] Ready [],
        [EvSpawn 0; EvPut (TaskItem w)] ++
        (EvGet 0 (TaskItem w) :: fst (execute 0 w)) ++
        [EvSpawn 1; EvPut (TaskItem w2)]).
Proof.
  intros Hm Hb. rewrite exec_app.
  assert (exec (replicate 6 Main) (boot (pool_of m 0) [Run w; Run w2]) =
          Some (mkConfig (mkPool (mkQueue 0 [TaskItem w]) m false false [] [])
                         [Spawned] Ready [Run w2],
                [EvSpawn 0; EvPut (TaskItem w)])) as ->.
  { cbn [replicate exec step client ctrl prog pool workers enter boot pool_of
         cancel free_list generate_list max_num q length Nat.eqb
         generate_thread app].
    change (Z.of_nat 0) with 0. rewrite (proj2 (Z.ltb_lt 0 m)) by lia.
    reflexivity. }
  rewrite exec_app.
  assert (exec (replicate 4 (Worker 0%nat))
            (mkConfig (mkPool (mkQueue 0 [TaskItem w]) m false false [] [])
                      [Spawned] Ready [Run w2]) =
          Some (mkConfig (mkPool (mkQueue 0 []) m false false [0%nat] [])
                         [IdleEnter] Ready [Run w2],
                EvGet 0 (TaskItem w) :: fst (execute 0 w))) as ->.
  { cbn [replicate exec]. worker_steps.
    cbn [app]. rewrite !app_nil_r. reflexivity. }
  assert (exec (replicate 6 Main)
            (mkConfig (mkPool (mkQueue 0 []) m false false [0%nat] [])
                      [IdleEnter] Ready [Run w2]) =
          Some (mkConfig (mkPool (mkQueue 0 [TaskItem w2]) m false false
                                 [0%nat] [])
                         [IdleEnter; Spawned] Ready [],
                [EvSpawn 1; EvPut (TaskItem w2)])) as ->.
  { cbn [replicate exec step client ctrl prog pool workers enter
         cancel free_list generate_list max_num q length Nat.eqb
         generate_thread app].
    change (Z.of_nat 1) with 1. rewrite (proj2 (Z.ltb_lt 1 m)) by lia.
    reflexivity. }
  reflexivity.
Qed.

End Reuse.

(** X15.  Threads can be reused.  On a pool with [max_num >= 1] and an
    unbounded queue, under the schedule [reuse_schedule], in which after
    each task the worker is back in [free_list], waiting in the [get] of
    line 92, before the next [run] call is made, one thread serves all the
    tasks whatever [max_num] is: the tasks [w :: ws] (which leave [call]
    running) followed by [close] give one thread started; each task put,
    taken and run in turn; two [StopEvent]s put, one taken; the worker
    gone from both lists and one [StopEvent] left on the queue.  That the
    task is finished is not enough: when the second [run] is made after
    the first task has been executed but before its worker has reached
    line 122, and [max_num >= 2], a second thread is started. *)
Theorem one_thread_serves_all m w ws :
  0 < m -> benign 0%nat w -> Forall (benign 0%nat) ws ->
  (exec (reuse_schedule (length ws))
        (boot (pool_of m 0) ((Run <$> (w :: ws)) ++ [Close])) =
   Some (mkConfig (mkPool (mkQueue 0 [StopEvent]) m true false [] [])
                  [Finished] Ready [],
         reuse_trace w ws) /\
   spawns (reuse_trace w ws) = 1%nat) /\
  (2 <= m ->
   forall w2,
     exec (replicate 6 Main ++ replicate 4 (Worker 0%nat) ++ replicate 6 Main)
          (boot (pool_of m 0) [Run w; Run w2]) =
     Some (mkConfig (mkPool (mkQueue 0 [TaskItem w2]) m false false [0%nat] [])
                    [IdleEnter; Spawned] Ready [],
           [EvSpawn 0; EvPut (TaskItem w)] ++
           (EvGet 0 (TaskItem w) :: fst (execute 0 w)) ++
           [EvSpawn 1; EvPut (TaskItem w2)])).
Proof.
  intros Hm Hb Hall. split_and!.
  - unfold reuse_schedule, reuse_trace.
    rewrite fmap_cons, <- app_comm_cons, exec_app.
    rewrite (first_task _ _ _ Hm Hb), exec_app.
    rewrite (further_tasks _ _ _ Hall), last_call. reflexivity.
  - assert (forall w', spawns (serve_trace 0 w') = 0%nat) as Hex.
    { intros w'. unfold serve_trace, execute.
      destruct (try_func w') as [[s r]|]; [| done].
      by destruct (try_callback w' s r) as [[] ?]. }
    assert (spawns (concat (map (serve_trace 0) ws)) = 0%nat) as Hws.
    { clear -Hex. induction ws as [|w' ws IH]; [done |].
      cbn [map concat]. rewrite spawns_app, IH, Hex. done. }
    unfold reuse_trace.
    change (EvSpawn 0 :: serve_trace 0 w)
      with ([EvSpawn 0] ++ serve_trace 0 w).
    rewrite !spawns_app, Hex, Hws. reflexivity.
  - intros Hm2 w2. by apply early_run.
Qed.

(** An instance with [max_num = 5]: a failing task and a second task
    served by one thread; and the same two tasks with the second [run]
    made too early, which starts a second thread. *)
Lemma one_thread_serves_all_witness :
  exec (reuse_schedule 1)
       (boot (pool_of 5 0) [Run failing; Run (action 2); Close]) =
  Some (mkConfig (mkPool (mkQueue 0 [StopEvent]) 5 true false [] [])
                 [Finished] Ready [],
        reuse_trace failing [action 2]) /\
  exec (replicate 6 Main ++ replicate 4 (Worker 0%nat) ++ replicate 6 Main)
       (boot (pool_of 5 0) [Run failing; Run (action 2)]) =
  Some (mkConfig (mkPool (mkQueue 0 [TaskItem (action 2)]) 5 false false
                         [0%nat] [])
                 [IdleEnter; Spawned] Ready [],
        [EvSpawn 0; EvPut (TaskItem failing)] ++
        (EvGet 0 (TaskItem failing) :: fst (execute 0 failing)) ++
        [EvSpawn 1; EvPut (TaskItem (action 2))]).
Proof.
  assert (0 < 5) as H5 by lia.
  assert (benign 0%nat failing) as Hb by reflexivity.
  assert (Forall (benign 0%nat) [action 2]) as Hall by (repeat constructor).
  split.
  - exact (proj1 (proj1 (one_thread_serves_all 5 failing [action 2]
                           H5 Hb Hall))).
  - apply (proj2 (one_thread_serves_all 5 failing [action 2] H5 Hb Hall)).
    lia.
Defined.

(** * Client calls under interleaving *)

Section Lines.

Lemma exec_prog_length sched : forall c c' tr,
  exec sched c = Some (c', tr) -> (length (prog c') <= length (prog c))%nat.
Proof.
  induction sched as [|a sched IH]; intros c c' tr H; simpl in H.
  - by simplify_eq.
  - destruct (step a c) as [[c1 evs]|] eqn:Hs; [| done].
    destruct (exec sched c1) as [[c2 tr2]|] eqn:He; [| done].
    simplify_eq. specialize (IH _ _ _ He).
    destruct a as [|t].
    + apply client_prog_length in Hs. lia.
    + destruct (worker_step_frame _ _ _ _ Hs) as (_ & Hp & _). rewrite <- Hp. done.
Qed.

(** A worker step leaves the client, the flags and the size of the thread
    table alone, starts no thread and puts nothing on the queue. *)
Lemma worker_step_client t c c' evs :
  step (Worker t) c = Some (c', evs) ->
  ctrl c' = ctrl c /\ prog c' = prog c /\
  cancel (pool c') = cancel (pool c) /\
  max_num (pool c') = max_num (pool c) /\
  maxsize (q (pool c')) = maxsize (q (pool c)) /\
  length (workers c') = length (workers c) /\
  spawns evs = 0%nat /\ puts evs = [].
Proof.
  intros Hs.
  destruct (worker_step_frame _ _ _ _ Hs) as (Hc & Hp & _).
  destruct (flags_step _ _ _ _ Hs) as (_ & _ & Hm & Hx).
  simpl in Hs.
  destruct (workers c !! t) as [pc|] eqn:Ht; [| done].
  destruct (call t pc (pool c)) as [[[pc' p'] evs']|] eqn:Hcall; [| done].
  simplify_eq. simpl in *.
  destruct (call_queue _ _ _ _ _ _ Hcall) as (Hcan & _ & _).
  destruct (call_fifo _ _ _ _ _ _ Hcall) as (_ & Hputs & _).
  split_and!; try done.
  - by rewrite length_insert.
  - by eapply call_no_spawn.
Qed.

Lemma workers_only sched : forall c c' tr,
  forallb is_worker sched = true -> exec sched c = Some (c', tr) ->
  ctrl c' = ctrl c /\ prog c' = prog c /\
  cancel (pool c') = cancel (pool c) /\
  max_num (pool c') = max_num (pool c) /\
  maxsize (q (pool c')) = maxsize (q (pool c)) /\
  length (workers c') = length (workers c) /\
  spawns tr = 0%nat /\ puts tr = [] /\
  length (List.filter is_main sched) = 0%nat /\
  forall line, at_line line sched c = None.
Proof.
  induction sched as [|a sched IH]; intros c c' tr Hw H; simpl in H.
  - simplify_eq. done.
  - destruct (step a c) as [[c1 evs]|] eqn:Hs; [| done].
    destruct (exec sched c1) as [[c2 tr2]|] eqn:He; [| done].
    simplify_eq. simpl in Hw. apply andb_true_iff in Hw as [Ha Hw].
    destruct a as [|t]; [done |].
    destruct (worker_step_client _ _ _ _ Hs)
      as (E1 & E2 & E3 & E4 & E5 & E6 & E7 & E8).
    destruct (IH _ _ _ Hw He) as (F1 & F2 & F3 & F4 & F5 & F6 & F7 & F8 & F9 & F10).
    split_and!; try congruence.
    + rewrite spawns_app. lia.
    + by rewrite puts_app, E8, F8.
    + done.
    + intros line.
      change (at_line line (Worker t :: sched) c)
        with (match step (Worker t) c with
              | Some (c1, _) => at_line line sched c1
              | None => None
              end).
      rewrite Hs. apply F10.
Qed.

(** Every execution is a run of worker steps, then either nothing more or
    a step of the client and the rest. *)
Lemma next_client_step sched : forall c c' tr,
  exec sched c = Some (c', tr) ->
  forallb is_worker sched = true \/
  exists s1 s2 c1 tr1 c2 evs tr2,
    sched = s1 ++ Main :: s2 /\ forallb is_worker s1 = true /\
    exec s1 c = Some (c1, tr1) /\ client c1 = Some (c2, evs) /\
    exec s2 c2 = Some (c', tr2) /\ tr = tr1 ++ evs ++ tr2.
Proof.
  induction sched as [|a sched IH]; intros c c' tr H; [by left |].
  simpl in H.
  destruct (step a c) as [[c1 evs]|] eqn:Hs; [| done].
  destruct (exec sched c1) as [[c2 tr2]|] eqn:He; [| done].
  simplify_eq. destruct a as [|t].
  - right. exists [], sched, c, [], c1, evs, tr2. by split_and!.
  - destruct (IH _ _ _ He)
      as [Hw|(s1 & s2 & d1 & tr1 & d2 & evs' & tr3 & -> & Hw & He1 & Hc & He2 & ->)].
    + left. done.
    + right. exists (Worker t :: s1), s2, d1, (evs ++ tr1), d2, evs', tr3.
      split_and!; try done.
      * by eapply exec_cons.
      * by rewrite app_assoc.
Qed.

Lemma at_line_next line s2 c2 evs : forall s1 c c1 tr1,
  forallb is_worker s1 = true -> exec s1 c = Some (c1, tr1) ->
  client c1 = Some (c2, evs) ->
  at_line line (s1 ++ Main :: s2) c =
  if line (ctrl c1) then Some c1 else at_line line s2 c2.
Proof.
  induction s1 as [|a s1 IH]; intros c c1 tr1 Hw He Hc; simpl in He.
  - simplify_eq.
    change (at_line line ([] ++ Main :: s2) c1)
      with (if line (ctrl c1) then Some c1
            else match client c1 with
                 | Some (d, _) => at_line line s2 d
                 | None => None
                 end).
    by rewrite Hc.
  - destruct (step a c) as [[d evs1]|] eqn:Hs; [| done].
    destruct (exec s1 d) as [[d2 tr2]|] eqn:He1; [| done].
    simplify_eq. simpl in Hw. apply andb_true_iff in Hw as [Ha Hw].
    destruct a as [|t]; [done |].
    rewrite <- app_comm_cons.
    change (at_line line (Worker t :: s1 ++ Main :: s2) c)
      with (match step (Worker t) c with
            | Some (d1, _) => at_line line (s1 ++ Main :: s2) d1
            | None => None
            end).
    rewrite Hs. by eapply IH.
Qed.

Lemma mains_app s1 s2 :
  length (List.filter is_main (s1 ++ Main :: s2)) =
  (length (List.filter is_main s1) + S (length (List.filter is_main s2)))%nat.
Proof. by rewrite List.filter_app, length_app. Qed.

(** A schedule of client steps only that begins with worker steps only
    begins with nothing. *)
Lemma no_worker_prefix s1 s2 :
  forallb is_main (s1 ++ Main :: s2) = true -> forallb is_worker s1 = true ->
  s1 = [] /\ forallb is_main s2 = true.
Proof.
  destruct s1 as [|[|t] s1]; simpl; try done.
Qed.

(** Once the client is back between two calls, a schedule that leaves the
    remaining calls untouched holds no client step. *)
Lemma returned_workers_only sched c c' tr :
  ctrl c = Ready -> exec sched c = Some (c', tr) ->
  prog c' = prog c -> forallb is_worker sched = true.
Proof.
  intros Hc He Hp.
  destruct (next_client_step _ _ _ _ He)
    as [Hw|(s1 & s2 & c1 & tr1 & c2 & evs & tr2 & -> & Hw & He1 & Hcl & He2 & ->)];
    [done |].
  exfalso.
  destruct (workers_only _ _ _ _ Hw He1) as (E1 & E2 & _).
  pose proof (exec_prog_length _ _ _ _ He2) as Hl.
  unfold client in Hcl. rewrite E1, Hc, E2 in Hcl.
  destruct (prog c) as [|a rest]; [done |]. simplify_eq. simpl in *.
  rewrite Hp in Hl. simpl in Hl. lia.
Qed.

End Lines.

Section Calls.

Lemma during_step a rest act c c' evs :
  during a rest c -> step act c = Some (c', evs) -> during a rest c'.
Proof.
  intros Hd Hs. destruct act as [|t].
  - simpl in Hs. pose proof (client_prog_length _ _ _ Hs) as Hlen.
    unfold client in Hs.
    destruct Hd as [[Hc Hp]|[[Hp [Hc|Hin]]|Hl]].
    + rewrite Hc, Hp in Hs. simplify_eq. right. left. simpl.
      split; [done |]. right. by destruct a.
    + rewrite Hc in Hs. destruct (prog c) as [|b pr] eqn:Hpr; [done |].
      simplify_eq. right. right. simpl. lia.
    + right. left.
      destruct a as [w| |], (ctrl c) as [|w'|w'|w'|w'|w'| | |[|n]| | | |];
        simpl in Hin; try done; simpl in Hs;
        repeat match type of Hs with
          | match ?x with _ => _ end = _ => destruct x eqn:?; simpl in Hs
          end;
        simplify_eq; simpl; (split; [done |]); auto.
    + right. right. lia.
  - destruct (worker_step_frame _ _ _ _ Hs) as (Hc & Hp & _).
    unfold during. by rewrite Hc, Hp.
Qed.

(** While a call is in progress the client stands at one of its lines. *)
Lemma during_exec a rest sched c c' tr :
  ctrl c = Ready -> prog c = a :: rest -> exec sched c = Some (c', tr) ->
  prog c' = rest -> ctrl c' <> Ready -> inside a (ctrl c').
Proof.
  intros Hc Hp He Hp' Hn.
  assert (during a rest c') as [[_ Hx]|[[_ [?|?]]|Hl]]; try done.
  - eapply (exec_invariant (during a rest)); [| | exact He].
    + intros act d d' evs. apply during_step.
    + by left.
  - rewrite Hp' in Hx. apply (f_equal length) in Hx. simpl in Hx. lia.
  - rewrite Hp' in Hl. lia.
Qed.

Lemma from_put c w sched c' tr :
  exec sched c = Some (c', tr) -> ctrl c = RunPut w ->
  ctrl c' = Ready -> prog c' = prog c ->
  spawns tr = 0%nat /\ puts tr = [TaskItem w] /\
  length (workers c') = length (workers c) /\
  (forall line, line (RunPut w) = false -> at_line line sched c = None).
Proof.
  intros He Hc Hr Hp.
  destruct (next_client_step _ _ _ _ He)
    as [Hw|(s1 & s2 & c1 & tr1 & c2 & evs & tr2 & -> & Hw & He1 & Hcl & He2 & ->)].
  { destruct (workers_only _ _ _ _ Hw He) as (E1 & _). congruence. }
  destruct (workers_only _ _ _ _ Hw He1)
    as (E1 & E2 & E3 & E4 & E5 & E6 & E7 & E8 & E9 & E10).
  pose proof Hcl as Hcl'.
  unfold client in Hcl. rewrite E1, Hc in Hcl.
  destruct (put (TaskItem w) (q (pool c1))) as [qu|] eqn:Hput; [| done].
  simplify_eq.
  assert (forallb is_worker s2 = true) as Hw2.
  { eapply returned_workers_only; [| exact He2 |]; simpl; [done | congruence]. }
  destruct (workers_only _ _ _ _ Hw2 He2)
    as (F1 & F2 & F3 & F4 & F5 & F6 & F7 & F8 & F9 & F10).
  simpl in F6. split_and!.
  - rewrite !spawns_app, E7, F7. done.
  - rewrite !puts_app, E8, F8. done.
  - congruence.
  - intros line Hl. rewrite (at_line_next _ _ _ _ _ _ _ _ Hw He1 Hcl').
    rewrite E1, Hc, Hl. apply F10.
Qed.

Lemma from_spawn c w sched c' tr :
  exec sched c = Some (c', tr) -> ctrl c = RunSpawn w ->
  ctrl c' = Ready -> prog c' = prog c ->
  spawns tr = 1%nat /\ puts tr = [TaskItem w] /\
  length (workers c') = S (length (workers c)) /\
  (forall line, line (RunSpawn w) = false -> line (RunPut w) = false ->
                at_line line sched c = None).
Proof.
  intros He Hc Hr Hp.
  destruct (next_client_step _ _ _ _ He)
    as [Hw|(s1 & s2 & c1 & tr1 & c2 & evs & tr2 & -> & Hw & He1 & Hcl & He2 & ->)].
  { destruct (workers_only _ _ _ _ Hw He) as (E1 & _). congruence. }
  destruct (workers_only _ _ _ _ Hw He1)
    as (E1 & E2 & E3 & E4 & E5 & E6 & E7 & E8 & E9 & E10).
  pose proof Hcl as Hcl'.
  unfold client in Hcl. rewrite E1, Hc in Hcl. simpl in Hcl. simplify_eq.
  destruct (from_put _ w _ _ _ He2 eq_refl Hr) as (G1 & G2 & G3 & G4);
    [simpl; congruence |].
  simpl in G3. rewrite length_app in G3. simpl in G3.
  split_and!.
  - rewrite !spawns_app, E7, G1. done.
  - rewrite !puts_app, E8, G2. done.
  - lia.
  - intros line Hl1 Hl2. rewrite (at_line_next _ _ _ _ _ _ _ _ Hw He1 Hcl').
    rewrite E1, Hc, Hl1. by apply G4.
Qed.

Lemma from_gen c w sched c' tr :
  exec sched c = Some (c', tr) -> ctrl c = RunGen w ->
  ctrl c' = Ready -> prog c' = prog c ->
  exists c2,
    at_line reads_generate_list sched c = Some c2 /\
    (forallb is_main sched = true -> pool c2 = pool c) /\
    spawns tr =
      (if Z.of_nat (length (generate_list (pool c2))) <? max_num (pool c2)
       then 1%nat else 0%nat) /\
    puts tr = [TaskItem w] /\
    length (workers c') = (length (workers c) + spawns tr)%nat.
Proof.
  intros He Hc Hr Hp.
  destruct (next_client_step _ _ _ _ He)
    as [Hw|(s1 & s2 & c1 & tr1 & c2 & evs & tr2 & -> & Hw & He1 & Hcl & He2 & ->)].
  { destruct (workers_only _ _ _ _ Hw He) as (E1 & _). congruence. }
  destruct (workers_only _ _ _ _ Hw He1)
    as (E1 & E2 & E3 & E4 & E5 & E6 & E7 & E8 & E9 & E10).
  pose proof Hcl as Hcl'.
  exists c1. split.
  { rewrite (at_line_next _ _ _ _ _ _ _ _ Hw He1 Hcl'). by rewrite E1, Hc. }
  split.
  { intros Hm. destruct (no_worker_prefix _ _ Hm Hw) as [-> _].
    simpl in He1. by simplify_eq. }
  unfold client in Hcl. rewrite E1, Hc in Hcl.
  destruct (Z.of_nat (length (generate_list (pool c1))) <? max_num (pool c1));
    simplify_eq.
  - destruct (from_spawn _ w _ _ _ He2 eq_refl Hr) as (G1 & G2 & G3 & _);
      [simpl; congruence |].
    simpl in G3. split_and!.
    + rewrite !spawns_app, E7, G1. done.
    + rewrite !puts_app, E8, G2. done.
    + rewrite !spawns_app, E7, G1. simpl. lia.
  - destruct (from_put _ w _ _ _ He2 eq_refl Hr) as (G1 & G2 & G3 & _);
      [simpl; congruence |].
    simpl in G3. split_and!.
    + rewrite !spawns_app, E7, G1. done.
    + rewrite !puts_app, E8, G2. done.
    + rewrite !spawns_app, E7, G1. simpl. lia.
Qed.

Lemma from_free c w sched c' tr :
  exec sched c = Some (c', tr) -> ctrl c = RunFree w ->
  ctrl c' = Ready -> prog c' = prog c ->
  (exists c1,
     at_line reads_free_list sched c = Some c1 /\
     (spawns tr = 1%nat <->
      free_list (pool c1) = [] /\
      exists c2, at_line reads_generate_list sched c = Some c2 /\
                 Z.of_nat (length (generate_list (pool c2))) < max_num (pool c2))) /\
  (spawns tr <= 1)%nat /\
  length (workers c') = (length (workers c) + spawns tr)%nat /\
  (forallb is_main sched = true ->
   (spawns tr = 1%nat <-> spawn_cond (pool c) = true)) /\
  puts tr = [TaskItem w].
Proof.
  intros He Hc Hr Hp.
  destruct (next_client_step _ _ _ _ He)
    as [Hw|(s1 & s2 & c1 & tr1 & c2 & evs & tr2 & -> & Hw & He1 & Hcl & He2 & ->)].
  { destruct (workers_only _ _ _ _ Hw He) as (E1 & _). congruence. }
  destruct (workers_only _ _ _ _ Hw He1)
    as (E1 & E2 & E3 & E4 & E5 & E6 & E7 & E8 & E9 & E10).
  pose proof Hcl as Hcl'.
  pose proof (at_line_next reads_free_list s2 _ _ _ _ _ _ Hw He1 Hcl') as Hat1.
  pose proof (at_line_next reads_generate_list s2 _ _ _ _ _ _ Hw He1 Hcl') as Hat2.
  rewrite E1, Hc in Hat1, Hat2. simpl in Hat1, Hat2.
  unfold client in Hcl. rewrite E1, Hc in Hcl.
  destruct (length (free_list (pool c1)) =? 0)%nat eqn:Hfree; simplify_eq.
  - apply Nat.eqb_eq, nil_length_inv in Hfree.
    destruct (from_gen _ w _ _ _ He2 eq_refl Hr)
      as (d & Hd & Hsolo & Hsp & Hput & Hlen); [simpl; congruence |].
    simpl in Hlen, Hsolo.
    assert (spawns (tr1 ++ [] ++ tr2) = spawns tr2) as Hsame
      by (rewrite !spawns_app, E7; done).
    rewrite Hsame.
    split_and!.
    + exists c1. split; [done |]. rewrite Hat2, Hd, Hsp.
      split.
      * intros H1. split; [done |]. exists d. split; [done |].
        destruct (Z.ltb_spec (Z.of_nat (length (generate_list (pool d))))
                    (max_num (pool d))); [done | lia].
      * intros [_ (d' & [= <-] & Hlt)].
        by rewrite (proj2 (Z.ltb_lt _ _) Hlt).
    + rewrite Hsp. destruct (_ <? _); lia.
    + lia.
    + intros Hm. destruct (no_worker_prefix _ _ Hm Hw) as [-> Hm2].
      simpl in He1. simplify_eq. rewrite Hsp, (Hsolo Hm2).
      unfold spawn_cond. rewrite Hfree. simpl.
      destruct (Z.of_nat (length (generate_list (pool c1))) <? max_num (pool c1));
        split; intros; first [done | discriminate].
    + rewrite !puts_app, E8, Hput. done.
  - apply Nat.eqb_neq in Hfree.
    destruct (from_put _ w _ _ _ He2 eq_refl Hr) as (G1 & G2 & G3 & _);
      [simpl; congruence |].
    simpl in G3.
    assert (spawns (tr1 ++ [] ++ tr2) = 0%nat) as ->
      by (rewrite !spawns_app, E7, G1; done).
    split_and!.
    + exists c1. split; [done |]. split; [lia |].
      intros [Hnil _]. rewrite Hnil in Hfree. done.
    + lia.
    + lia.
    + intros Hm. destruct (no_worker_prefix _ _ Hm Hw) as [-> Hm2].
      simpl in He1. simplify_eq. unfold spawn_cond.
      destruct (length (free_list (pool c1)) =? 0)%nat eqn:Hz;
        [by apply Nat.eqb_eq in Hz |].
      simpl. split; [lia | done].
    + rewrite !puts_app, E8, G2. done.
Qed.

End Calls.

(** C3 (counterexample).  [ThreadPool(2)] and three [run] calls.  When
    the second call is made worker 0 has finished the first task and
    stands before line 122: [free_list] is empty and [generate_list] holds
    one thread of two, yet the call starts no thread, because worker 0
    enters [free_list] before line 49 reads it.  When the third call is
    made worker 0 is in [free_list], yet the call starts a thread, because
    worker 0 leaves [free_list] (line 126) before line 49 reads it.  And on
    [ThreadPool(0, 1)] the second [run] finds the queue full with no
    thread to empty it: no thread can take a step and the task is never
    enqueued. *)
Lemma run_decision_is_not_atomic :
  let call2 :=
    mkConfig (mkPool (mkQueue 0 []) 2 false false [0%nat] [])
             [IdleEnter] Ready [Run (action 2); Run (action 3)] in
  let returned2 :=
    mkConfig (mkPool (mkQueue 0 [TaskItem (action 2)]) 2 false false
                     [0%nat] [0%nat])
             [IdleCheck] Ready [Run (action 3)] in
  let call3 :=
    mkConfig (mkPool (mkQueue 0 []) 2 false false [0%nat] [0%nat])
             [IdleExit (TaskItem (action 2))] Ready [Run (action 3)] in
  let returned3 :=
    mkConfig (mkPool (mkQueue 0 [TaskItem (action 3)]) 2 false false
                     [0%nat] [])
             [LoopTest (TaskItem (action 2)); Spawned] Ready [] in
  let blocked :=
    mkConfig (mkPool (mkQueue 1 [TaskItem (action 1)]) 0 false false [] [])
             [] (RunPut (action 2)) [] in
  exec (replicate 6 Main ++ replicate 4 (Worker 0%nat))
       (boot (pool_of 2 0) [Run (action 1); Run (action 2); Run (action 3)]) =
    Some (call2, [EvSpawn 0; EvPut (TaskItem (action 1));
                  EvGet 0 (TaskItem (action 1))]) /\
  spawn_cond (pool call2) = true /\
  exec [Main; Main; Worker 0%nat; Main; Main] call2 =
    Some (returned2, [EvPut (TaskItem (action 2))]) /\
  exec [Worker 0%nat; Worker 0%nat] returned2 =
    Some (call3, [EvGet 0 (TaskItem (action 2))]) /\
  spawn_cond (pool call3) = false /\
  exec [Main; Main; Worker 0%nat; Main; Main; Main; Main] call3 =
    Some (returned3, [EvSpawn 1; EvPut (TaskItem (action 3))]) /\
  solo 9 (boot (pool_of 0 1) [Run (action 1); Run (action 2)]) =
    Some (blocked, [EvPut (TaskItem (action 1))]) /\
  step Main blocked = None /\
  (forall t, step (Worker t) blocked = None).
Proof.
  cbv zeta. split_and!; vm_compute; reflexivity.
Qed.

(** C3 (amended).  A [run] call on a pool whose [cancel] flag is unset,
    under any interleaving with the workers.  Whenever the call has
    returned: it has started at most one thread, and it has started one if
    and only if [free_list] was empty in the state in which line 49 read
    it and [len(generate_list) < max_num] held in the state in which
    line 49 then read [generate_list] (two reads, between which and before
    which workers may move; when no worker moves during the call both read
    the pool as it was at the call); nothing else was added to the thread
    table; and the task was put on the queue exactly once, behind
    everything that was on the queue at the call.  While the call is in
    progress the client is blocked exactly when it stands at the [put] of
    line 53 and the queue is full. *)
Theorem run_spawns_iff_then_enqueues (c : Config) (w : Task) (rest : list api) :
  ctrl c = Ready -> prog c = Run w :: rest -> cancel (pool c) = false ->
  (forall sched c' tr,
     exec sched c = Some (c', tr) -> ctrl c' = Ready -> prog c' = rest ->
     (exists c1,
        at_line reads_free_list sched c = Some c1 /\
        (spawns tr = 1%nat <->
         free_list (pool c1) = [] /\
         exists c2,
           at_line reads_generate_list sched c = Some c2 /\
           Z.of_nat (length (generate_list (pool c2))) < max_num (pool c2))) /\
     (spawns tr <= 1)%nat /\
     length (workers c') = (length (workers c) + spawns tr)%nat /\
     (forallb is_main sched = true ->
      (spawns tr = 1%nat <-> spawn_cond (pool c) = true)) /\
     puts tr = [TaskItem w] /\
     queue (q (pool c)) ++ [TaskItem w] = leaving tr ++ queue (q (pool c'))) /\
  (forall sched c2 tr,
     exec sched c = Some (c2, tr) -> prog c2 = rest -> ctrl c2 <> Ready ->
     (step Main c2 = None <->
      ctrl c2 = RunPut w /\ full (q (pool c2)) = true)).
Proof.
  intros Hc Hp Hcan. split.
  - intros sched c' tr He Hr Hp'.
    pose proof (exec_fifo _ _ _ _ He) as Hfifo.
    destruct (next_client_step _ _ _ _ He)
      as [Hw|(s0 & r0 & c0 & tr0 & ca & evs0 & tra & -> & Hw0 & He0 & Hcl0 & Hea & ->)].
    { destruct (workers_only _ _ _ _ Hw He) as (_ & E2 & _).
      rewrite Hp', Hp in E2. apply (f_equal length) in E2. simpl in E2. lia. }
    destruct (workers_only _ _ _ _ Hw0 He0)
      as (E1 & E2 & E3 & E4 & E5 & E6 & E7 & E8 & E9 & E10).
    pose proof Hcl0 as Hcl0'.
    unfold client in Hcl0. rewrite E1, Hc, E2, Hp in Hcl0. simpl in Hcl0.
    simplify_eq.
    destruct (next_client_step _ _ _ _ Hea)
      as [Hw|(s1 & r1 & c1 & tr1 & cb & evs1 & trb & -> & Hw1 & He1 & Hcl1 & Heb & ->)].
    { destruct (workers_only _ _ _ _ Hw Hea) as (F1 & _). simpl in F1.
      congruence. }
    destruct (workers_only _ _ _ _ Hw1 He1)
      as (F1 & F2 & F3 & F4 & F5 & F6 & F7 & F8 & F9 & F10).
    simpl in F1, F2, F3, F6.
    pose proof Hcl1 as Hcl1'.
    unfold client in Hcl1. rewrite F1, F3, E3, Hcan in Hcl1. simplify_eq.
    destruct (from_free _ w _ _ _ Heb eq_refl Hr)
      as ((d1 & Hd1 & Hiff) & Hle & Hlen & Hsolo & Hput); [simpl; congruence |].
    simpl in Hlen, Hsolo.
    assert (spawns (tr0 ++ [] ++ tr1 ++ [] ++ trb) = spawns trb) as Hsp
      by (rewrite !spawns_app, E7, F7; done).
    assert (puts (tr0 ++ [] ++ tr1 ++ [] ++ trb) = [TaskItem w]) as Hputs
      by (rewrite !puts_app, E8, F8, Hput; done).
    assert (forall line, line Ready = false -> line (RunCancel w) = false ->
              at_line line (s0 ++ Main :: s1 ++ Main :: r1) c =
              at_line line r1 (mkConfig (pool c1) (workers c1) (RunFree w)
                                        (prog c1))) as Hat.
    { intros line H1 H2.
      rewrite (at_line_next line (s1 ++ Main :: r1) _ _ _ _ _ _ Hw0 He0 Hcl0').
      rewrite E1, Hc, H1.
      rewrite (at_line_next line r1 _ _ _ _ _ _ Hw1 He1 Hcl1').
      by rewrite F1, H2. }
    rewrite Hsp, Hputs in *. split_and!.
    + exists d1. split; [by rewrite Hat |].
      rewrite Hat by done. exact Hiff.
    + done.
    + lia.
    + intros Hm. destruct (no_worker_prefix _ _ Hm Hw0) as [-> Hm1].
      destruct (no_worker_prefix _ _ Hm1 Hw1) as [-> Hm2].
      simpl in He0, He1. simplify_eq. simpl in Hsolo. by apply Hsolo.
    + done.
    + done.
  - intros sched c2 tr He Hp2 Hn.
    pose proof (during_exec _ _ _ _ _ _ Hc Hp He Hp2 Hn) as Hin.
    simpl. unfold client.
    destruct (ctrl c2) as [|w'|w'|w'|w'|w'| | |[|n]| | | |] eqn:Hpc;
      simpl in Hin; try done; subst w'.
    + destruct (cancel (pool c2)); split; try done; by intros [[=] _].
    + destruct (_ =? _)%nat; split; try done; by intros [[=] _].
    + destruct (_ <? _); split; try done; by intros [[=] _].
    + split; [done | by intros [[=] _]].
    + unfold put. destruct (full (q (pool c2))); split; try done.
      by intros [_ [=]].
Qed.

(** An instance: the second call of the counterexample, on which line 49
    reads [free_list] after worker 0 has entered it. *)
Lemma run_spawns_iff_then_enqueues_witness :
  let call2 :=
    mkConfig (mkPool (mkQueue 0 []) 2 false false [0%nat] [])
             [IdleEnter] Ready [Run (action 2); Run (action 3)] in
  let sched := [Main; Main; Worker 0%nat; Main; Main] in
  let tr := [EvPut (TaskItem (action 2))] in
  (exists c1,
     at_line reads_free_list sched call2 = Some c1 /\
     (spawns tr = 1%nat <->
      free_list (pool c1) = [] /\
      exists c2,
        at_line reads_generate_list sched call2 = Some c2 /\
        Z.of_nat (length (generate_list (pool c2))) < max_num (pool c2))) /\
  (spawns tr <= 1)%nat /\
  puts tr = [TaskItem (action 2)].
Proof.
  cbv zeta.
  pose (call2 :=
    mkConfig (mkPool (mkQueue 0 []) 2 false false [0%nat] [])
             [IdleEnter] Ready [Run (action 2); Run (action 3)]).
  assert (exec [Main; Main; Worker 0%nat; Main; Main] call2 =
          Some (mkConfig (mkPool (mkQueue 0 [TaskItem (action 2)]) 2
                                 false false [0%nat] [0%nat])
                         [IdleCheck] Ready [Run (action 3)],
                [EvPut (TaskItem (action 2))])) as He
    by (vm_compute; reflexivity).
  destruct (proj1 (run_spawns_iff_then_enqueues call2 (action 2)
                     [Run (action 3)] eq_refl eq_refl eq_refl)
              _ _ _ He eq_refl eq_refl)
    as (Hread & Hle & _ & _ & Hputs & _).
  split_and!; [exact Hread | exact Hle | exact Hputs].
Defined.

Section CloseCall.

Lemma maxsize_exec sched : forall c c' tr,
  exec sched c = Some (c', tr) -> maxsize (q (pool c')) = maxsize (q (pool c)).
Proof.
  induction sched as [|a sched IH]; intros c c' tr H; simpl in H.
  - by simplify_eq.
  - destruct (step a c) as [[c1 evs]|] eqn:Hs; [| done].
    destruct (exec sched c1) as [[c2 tr2]|] eqn:He; [| done].
    simplify_eq. destruct (flags_step _ _ _ _ Hs) as (_ & _ & _ & Hm).
    rewrite (IH _ _ _ He). done.
Qed.

(** The loop of lines 102-104 under interleaving: [k] signals, [k + 1]
    steps of the client. *)
Lemma from_close_loop k : forall sched c c' tr,
  exec sched c = Some (c', tr) -> ctrl c = CloseLoop k ->
  ctrl c' = Ready -> prog c' = prog c ->
  puts tr = replicate k StopEvent /\ spawns tr = 0%nat /\
  length (List.filter is_main sched) = S k /\
  cancel (pool c') = cancel (pool c) /\
  length (workers c') = length (workers c).
Proof.
  induction k as [|k IH]; intros sched c c' tr He Hc Hr Hp.
  - destruct (next_client_step _ _ _ _ He)
      as [Hw|(s1 & s2 & c1 & tr1 & c2 & evs & tr2 & -> & Hw & He1 & Hcl & He2 & ->)].
    { destruct (workers_only _ _ _ _ Hw He) as (E1 & _). congruence. }
    destruct (workers_only _ _ _ _ Hw He1)
      as (E1 & E2 & E3 & E4 & E5 & E6 & E7 & E8 & E9 & E10).
    unfold client in Hcl. rewrite E1, Hc in Hcl. simplify_eq.
    assert (forallb is_worker s2 = true) as Hw2.
    { eapply returned_workers_only; [| exact He2 |]; simpl; [done | congruence]. }
    destruct (workers_only _ _ _ _ Hw2 He2)
      as (F1 & F2 & F3 & F4 & F5 & F6 & F7 & F8 & F9 & F10).
    simpl in F3, F6. split_and!.
    + rewrite !puts_app, E8, F8. done.
    + rewrite !spawns_app, E7, F7. done.
    + rewrite mains_app, E9, F9. done.
    + congruence.
    + congruence.
  - destruct (next_client_step _ _ _ _ He)
      as [Hw|(s1 & s2 & c1 & tr1 & c2 & evs & tr2 & -> & Hw & He1 & Hcl & He2 & ->)].
    { destruct (workers_only _ _ _ _ Hw He) as (E1 & _). congruence. }
    destruct (workers_only _ _ _ _ Hw He1)
      as (E1 & E2 & E3 & E4 & E5 & E6 & E7 & E8 & E9 & E10).
    unfold client in Hcl. rewrite E1, Hc in Hcl.
    destruct (put StopEvent (q (pool c1))) as [qu|] eqn:Hput; [| done].
    simplify_eq.
    destruct (IH _ _ _ _ He2 eq_refl Hr) as (G1 & G2 & G3 & G4 & G5);
      [simpl; congruence |].
    simpl in G4, G5. split_and!.
    + rewrite !puts_app, E8, G1. done.
    + rewrite !spawns_app, E7, G2. done.
    + rewrite mains_app, E9, G3. done.
    + congruence.
    + congruence.
Qed.

End CloseCall.

(** C8 (amended).  [close()] under any interleaving with the workers.
    Whenever the call has returned: [cancel] is set; the call has put
    exactly [len(generate_list) + 1] [StopEvent]s and nothing else on the
    queue, where the length is the one line 101 read, once, after line 100
    had set the flag: workers that register or return before that read
    count, later ones do not (when no worker moves during the call it is
    the length at the call); the client took [len(generate_list) + 5]
    steps and started no thread.  While the call is in progress the client
    is blocked exactly when it stands at the [put] of line 103 and the
    queue is full, never on an unbounded queue.  Executed alone, with the
    queue unbounded or with room for the signals, it returns after those
    puts with nothing else changed; on a bounded queue without that room
    it blocks in a [put] before all of them are enqueued. *)
Theorem close_enqueues_count_plus_one (c : Config) (rest : list api) :
  ctrl c = Ready -> prog c = Close :: rest ->
  (forall sched c' tr,
     exec sched c = Some (c', tr) -> ctrl c' = Ready -> prog c' = rest ->
     cancel (pool c') = true /\
     exists c1,
       at_line counts_generate_list sched c = Some c1 /\
       cancel (pool c1) = true /\
       puts tr = replicate (length (generate_list (pool c1)) + 1) StopEvent /\
       spawns tr = 0%nat /\
       length (List.filter is_main sched) =
         (length (generate_list (pool c1)) + 5)%nat /\
       (forallb is_main sched = true ->
        generate_list (pool c1) = generate_list (pool c))) /\
  (forall sched c2 tr,
     exec sched c = Some (c2, tr) -> prog c2 = rest -> ctrl c2 <> Ready ->
     (step Main c2 = None <->
      (exists k, ctrl c2 = CloseLoop (S k)) /\ full (q (pool c2)) = true) /\
     (maxsize (q (pool c)) <= 0 -> step Main c2 <> None)) /\
  (let n := length (generate_list (pool c)) in
   (room (n + 1) (q (pool c)) ->
    solo (n + 5) c =
    Some (mkConfig
            (set_q (mkQueue (maxsize (q (pool c)))
                            (queue (q (pool c)) ++ replicate (n + 1) StopEvent))
                   (set_cancel true (pool c)))
            (workers c) Ready rest,
          replicate (n + 1) (EvPut StopEvent))) /\
   (~ room (n + 1) (q (pool c)) ->
    exists j c',
      (j < n + 1)%nat /\
      solo (3 + j) c = Some (c', replicate j (EvPut StopEvent)) /\
      cancel (pool c') = true /\
      ctrl c' = CloseLoop (n + 1 - j) /\ client c' = None)).
Proof.
  intros Hc Hp. split_and!.
  - intros sched c' tr He Hr Hp'.
    destruct (next_client_step _ _ _ _ He)
      as [Hw|(s0 & r0 & c0 & tr0 & ca & evs0 & tra & -> & Hw0 & He0 & Hcl0 & Hea & ->)].
    { destruct (workers_only _ _ _ _ Hw He) as (_ & E2 & _).
      rewrite Hp', Hp in E2. apply (f_equal length) in E2. simpl in E2. lia. }
    destruct (workers_only _ _ _ _ Hw0 He0)
      as (E1 & E2 & E3 & E4 & E5 & E6 & E7 & E8 & E9 & E10).
    pose proof Hcl0 as Hcl0'.
    unfold client in Hcl0. rewrite E1, Hc, E2, Hp in Hcl0. simpl in Hcl0.
    simplify_eq.
    destruct (next_client_step _ _ _ _ Hea)
      as [Hw|(s1 & r1 & c1 & tr1 & cb & evs1 & trb & -> & Hw1 & He1 & Hcl1 & Heb & ->)].
    { destruct (workers_only _ _ _ _ Hw Hea) as (F1 & _). simpl in F1.
      congruence. }
    destruct (workers_only _ _ _ _ Hw1 He1)
      as (F1 & F2 & F3 & F4 & F5 & F6 & F7 & F8 & F9 & F10).
    simpl in F1, F2, F3, F6.
    pose proof Hcl1 as Hcl1'.
    unfold client in Hcl1. rewrite F1 in Hcl1. simplify_eq.
    destruct (next_client_step _ _ _ _ Heb)
      as [Hw|(s2 & r2 & c2 & tr2 & cc & evs2 & trc & -> & Hw2 & He2 & Hcl2 & Hec & ->)].
    { destruct (workers_only _ _ _ _ Hw Heb) as (G1 & _). simpl in G1.
      congruence. }
    destruct (workers_only _ _ _ _ Hw2 He2)
      as (G1 & G2 & G3 & G4 & G5 & G6 & G7 & G8 & G9 & G10).
    simpl in G1, G2, G3, G6.
    pose proof Hcl2 as Hcl2'.
    unfold client in Hcl2. rewrite G1 in Hcl2. simplify_eq.
    destruct (from_close_loop _ _ _ _ _ Hec eq_refl Hr)
      as (L1 & L2 & L3 & L4 & L5); [simpl; congruence |].
    simpl in L4, L5.
    split; [congruence |]. exists c2. split_and!.
    + rewrite (at_line_next _ (s1 ++ Main :: s2 ++ Main :: r2)
                 _ _ _ _ _ _ Hw0 He0 Hcl0').
      rewrite E1, Hc. simpl.
      rewrite (at_line_next _ (s2 ++ Main :: r2) _ _ _ _ _ _ Hw1 He1 Hcl1').
      rewrite F1. simpl.
      rewrite (at_line_next _ r2 _ _ _ _ _ _ Hw2 He2 Hcl2').
      by rewrite G1.
    + done.
    + rewrite !puts_app, E8, F8, G8, L1. done.
    + rewrite !spawns_app, E7, F7, G7, L2. done.
    + rewrite !mains_app, E9, F9, G9, L3. lia.
    + intros Hm. destruct (no_worker_prefix _ _ Hm Hw0) as [-> Hm1].
      destruct (no_worker_prefix _ _ Hm1 Hw1) as [-> Hm2].
      destruct (no_worker_prefix _ _ Hm2 Hw2) as [-> Hm3].
      simpl in He0, He1, He2. by simplify_eq.
  - intros sched c2 tr He Hp2 Hn.
    pose proof (during_exec _ _ _ _ _ _ Hc Hp He Hp2 Hn) as Hin.
    pose proof (maxsize_exec _ _ _ _ He) as Hmax.
    assert (step Main c2 = None <->
            (exists k, ctrl c2 = CloseLoop (S k)) /\ full (q (pool c2)) = true)
      as Hblock.
    { simpl. unfold client.
      destruct (ctrl c2) as [|w'|w'|w'|w'|w'| | |[|n]| | | |] eqn:Hpc;
        simpl in Hin; try done.
      - split; [done | by intros [[k [=]] _]].
      - split; [done | by intros [[k [=]] _]].
      - split; [done | by intros [[k [=]] _]].
      - unfold put. destruct (full (q (pool c2))); split; try done.
        + intros _. split; [by exists n | done].
        + by intros [_ [=]]. }
    split; [done |].
    intros Hun Hnone. apply Hblock in Hnone as [_ Hfull].
    rewrite unbounded_not_full in Hfull; [done | lia].
  - exact (close_alone c rest Hc Hp).
Qed.

(** An instance: [close()] called while worker 0 is started but not yet
    registered.  The worker registers between line 100 and line 101, so
    the call counts one thread and puts two [StopEvent]s although
    [generate_list] was empty at the call. *)
Lemma close_enqueues_count_plus_one_witness :
  let at_call :=
    mkConfig (mkPool (mkQueue 0 [TaskItem (action 1)]) 2 false false [] [])
             [Spawned] Ready [Close] in
  let sched := [Main; Main; Worker 0%nat; Main; Main; Main; Main] in
  let tr := [EvPut StopEvent; EvPut StopEvent] in
  generate_list (pool at_call) = [] /\
  exists c1,
    at_line counts_generate_list sched at_call = Some c1 /\
    generate_list (pool c1) = [0%nat] /\
    puts tr = replicate (length (generate_list (pool c1)) + 1) StopEvent /\
    length (List.filter is_main sched) =
      (length (generate_list (pool c1)) + 5)%nat.
Proof.
  cbv zeta. split; [reflexivity |].
  pose (at_call :=
    mkConfig (mkPool (mkQueue 0 [TaskItem (action 1)]) 2 false false [] [])
             [Spawned] Ready [Close]).
  assert (exec [Main; Main; Worker 0%nat; Main; Main; Main; Main] at_call =
          Some (mkConfig (mkPool (mkQueue 0 [TaskItem (action 1); StopEvent;
                                             StopEvent])
                                 2 true false [0%nat] [])
                         [FirstGet] Ready [],
                [EvPut StopEvent; EvPut StopEvent])) as He
    by (vm_compute; reflexivity).
  destruct (proj1 (close_enqueues_count_plus_one at_call [] eq_refl eq_refl)
              _ _ _ He eq_refl eq_refl)
    as (_ & c1 & Hat & _ & Hputs & _ & Hmains & _).
  exists c1. split_and!; [exact Hat | | exact Hputs | exact Hmains].
  vm_compute in Hat. by injection Hat as <-.
Defined.

(** * A pool without workers *)

Section NoWorkers.

Lemma exec_trace_invariant (P : Config -> list event -> Prop) :
  (forall a c c' tr evs,
      P c tr -> step a c = Some (c', evs) -> P c' (tr ++ evs)) ->
  forall sched c c' tr0 tr,
    P c tr0 -> exec sched c = Some (c', tr) -> P c' (tr0 ++ tr).
Proof.
  intros Hstep. induction sched as [|a sched IH]; intros c c' tr0 tr HP H;
    simpl in H.
  - simplify_eq. by rewrite app_nil_r.
  - destruct (step a c) as [[c1 evs]|] eqn:Hs; [| done].
    destruct (exec sched c1) as [[c2 tr2]|] eqn:He; [| done].
    simplify_eq. rewrite app_assoc. eapply IH; [| exact He].
    by eapply Hstep.
Qed.

(** What the client thread can emit: no [get], no callback, and a spawn
    only at line 50. *)
Lemma client_events c c' evs :
  client c = Some (c', evs) ->
  gots evs = [] /\ callbacks evs = 0%nat /\
  (spawns evs = 0%nat \/ exists w, ctrl c = RunSpawn w).
Proof.
  unfold client. intros H.
  destruct (ctrl c) as [|w|w|w|w|w| | |[|n]| | | |]; simpl in H;
    repeat match type of H with
      | match ?x with _ => _ end = _ => destruct x eqn:?; simpl in H
      end;
    simplify_eq; split_and!; try done; try (by left).
  right. by exists w.
Qed.

Lemma no_workers_step a c c' tr evs :
  no_spawn c /\ spawns tr = 0%nat /\ gots tr = [] /\ callbacks tr = 0%nat ->
  step a c = Some (c', evs) ->
  no_spawn c' /\ spawns (tr ++ evs) = 0%nat /\ gots (tr ++ evs) = [] /\
  callbacks (tr ++ evs) = 0%nat.
Proof.
  intros (Hn & H1 & H2 & H3) Hs.
  split; [by eapply no_spawn_step |].
  destruct a as [|t].
  - simpl in Hs. destruct (client_events _ _ _ Hs) as (G1 & G2 & G3).
    rewrite spawns_app, gots_app, callbacks_app, H1, H2, H3, G1, G2.
    split_and!; try done.
    destruct G3 as [->|[w Hw]]; [done |].
    destruct Hn as (_ & _ & Hno). by destruct (Hno w).
  - destruct Hn as (_ & Hw & _). simpl in Hs. rewrite Hw in Hs. done.
Qed.

(** With [max_num <= 0] and an unbounded queue every [run] call takes
    five steps and ends with its task on the queue. *)
Lemma runs_without_workers m mx tm : forall ws items rest,
  m <= 0 -> mx <= 0 ->
  solo (5 * length ws)
       (mkConfig (mkPool (mkQueue mx items) m false tm [] []) []
                 Ready ((Run <$> ws) ++ rest)) =
  Some (mkConfig (mkPool (mkQueue mx (items ++ (TaskItem <$> ws))) m false tm
                         [] [])
                 [] Ready rest,
        (fun w => EvPut (TaskItem w)) <$> ws).
Proof.
  induction ws as [|w ws IH]; intros items rest Hm Hmx.
  - simpl. by rewrite app_nil_r.
  - replace (5 * length (w :: ws))%nat with (5 + 5 * length ws)%nat
      by (simpl; lia).
    unfold solo in *. rewrite replicate_add, exec_app.
    assert (exec (replicate 5 Main)
              (mkConfig (mkPool (mkQueue mx items) m false tm [] []) []
                        Ready ((Run <$> (w :: ws)) ++ rest)) =
            Some (mkConfig (mkPool (mkQueue mx (items ++ [TaskItem w])) m
                                   false tm [] [])
                           [] Ready ((Run <$> ws) ++ rest),
                  [EvPut (TaskItem w)])) as ->.
    { cbn [replicate exec step client ctrl prog pool workers enter fmap
           list_fmap app cancel free_list generate_list max_num q length
           Nat.eqb].
      change (Z.of_nat 0) with 0.
      destruct (Z.ltb_spec 0 m) as [?|_]; [lia |].
      cbn [replicate exec step client ctrl prog pool workers].
      unfold put. rewrite unbounded_not_full by done.
      reflexivity. }
    rewrite IH by done. rewrite <- app_assoc. reflexivity.
Qed.

(** The state of a pool that only ever receives [run] calls and has no
    worker: what was put is what is on the queue, and every call made so
    far that is not in progress has put its task. *)
Lemma only_runs_step (total : nat) a c c' tr evs :
  (no_spawn c /\ cancel (pool c) = false /\
   forallb is_run (prog c) = true /\
   (ctrl c = Ready \/ in_run_call (ctrl c) = true) /\
   queue (q (pool c)) = puts tr /\
   (length (puts tr) + (if in_run_call (ctrl c) then 1 else 0)
      + length (prog c) = total)%nat) ->
  step a c = Some (c', evs) ->
  (no_spawn c' /\ cancel (pool c') = false /\
   forallb is_run (prog c') = true /\
   (ctrl c' = Ready \/ in_run_call (ctrl c') = true) /\
   queue (q (pool c')) = puts (tr ++ evs) /\
   (length (puts (tr ++ evs)) + (if in_run_call (ctrl c') then 1 else 0)
      + length (prog c') = total)%nat).
Proof.
  intros (Hn & Hcan & Hruns & Hpc & Hq & Hcount) Hs.
  split; [by eapply no_spawn_step |].
  destruct a as [|t].
  - simpl in Hs. unfold client in Hs.
    destruct Hn as (_ & _ & Hno).
    destruct (ctrl c) as [|w|w|w|w|w| | |[|n]| | | |] eqn:Hctrl;
      simpl in Hcount; destruct Hpc as [Hpc|Hpc]; try done; simpl in Hs;
      repeat match type of Hs with
        | match ?x with _ => _ end = _ => destruct x eqn:?; simpl in Hs
        end;
      simplify_eq; simpl in *; rewrite ?puts_app, ?app_nil_r, ?length_app;
      simpl;
      try (match goal with E : put _ _ = Some _ |- _ =>
             apply put_queue in E; rewrite E end);
      try (apply andb_true_iff in Hruns as [Ha Hruns]);
      try (by destruct (Hno w));
      split_and!; try done; try (by left); try (by right);
      try congruence; try lia.
    all: try (destruct a; try done; simpl; by right).
    all: try (destruct a; try done; simpl; lia).
  - destruct Hn as (_ & Hw & _). simpl in Hs. rewrite Hw in Hs. done.
Qed.

Lemma no_workers_exec sched c c' tr :
  exec sched c = Some (c', tr) -> no_spawn c ->
  no_spawn c' /\ spawns tr = 0%nat /\ gots tr = [] /\ callbacks tr = 0%nat.
Proof.
  intros He Hn.
  apply (exec_trace_invariant
           (fun c tr => no_spawn c /\ spawns tr = 0%nat /\
                        gots tr = [] /\ callbacks tr = 0%nat)
           no_workers_step sched c c' [] tr); done.
Qed.

Lemma only_runs_exec (total : nat) sched c c' tr :
  exec sched c = Some (c', tr) ->
  (no_spawn c /\ cancel (pool c) = false /\
   forallb is_run (prog c) = true /\
   (ctrl c = Ready \/ in_run_call (ctrl c) = true) /\
   queue (q (pool c)) = [] /\
   ((if in_run_call (ctrl c) then 1 else 0) + length (prog c) = total)%nat) ->
  queue (q (pool c')) = puts tr /\
  (length (puts tr) + (if in_run_call (ctrl c') then 1 else 0)
     + length (prog c') = total)%nat.
Proof.
  intros He Hpre.
  pose proof (exec_trace_invariant _ (only_runs_step total)
                sched c c' [] tr) as H.
  simpl in H. destruct H as (_ & _ & _ & _ & Hq & Hcount); done.
Qed.

End NoWorkers.

(** C9 (amended).  Construction validates nothing: for every [max_num],
    positive or not, it returns a pool with that bound, both flags unset,
    both thread lists and the queue empty.  A pool built with
    [max_num <= 0] never starts a thread, so nothing is ever taken off its
    queue and no callback ever fires.  Its [run] calls still enqueue: on
    an unbounded queue each call returns after five steps with its task
    at the tail; on a queue bounded to [n] items the queue holds exactly
    what was put, never more than [n] tasks, and when more than [n] calls
    are made the client never gets through them. *)
Theorem init_never_fails m k :
  (exists p, __init__ m k = Returns p /\
             max_num p = m /\ cancel p = false /\ terminal p = false /\
             generate_list p = [] /\ free_list p = [] /\ queue (q p) = []) /\
  (m <= 0 ->
   forall calls c0 sched c tr,
     initial m k calls = Some c0 -> exec sched c0 = Some (c, tr) ->
     workers c = [] /\ spawns tr = 0%nat /\ gots tr = [] /\
     callbacks tr = 0%nat) /\
  (m <= 0 -> match k with Some n => n <= 0 | None => True end ->
   forall ws c0,
     initial m k (Run <$> ws) = Some c0 ->
     solo (5 * length ws) c0 =
     Some (mkConfig
             (set_q (mkQueue (maxsize (q (pool c0))) (TaskItem <$> ws))
                    (pool c0))
             [] Ready [],
           (fun w => EvPut (TaskItem w)) <$> ws)) /\
  (m <= 0 ->
   forall n, k = Some n -> 0 < n ->
   forall ws c0 sched c tr,
     initial m k (Run <$> ws) = Some c0 -> exec sched c0 = Some (c, tr) ->
     queue (q (pool c)) = puts tr /\
     Z.of_nat (length (puts tr)) <= n /\
     (n < Z.of_nat (length ws) -> ~ (ctrl c = Ready /\ prog c = []))).
Proof.
  split_and!.
  - rewrite init_returns. eexists. split; [done |]. done.
  - intros Hm calls c0 sched c tr Hi He. rewrite initial_boot in Hi.
    simplify_eq.
    destruct (no_workers_exec _ _ _ _ He) as ((_ & Hw & _) & H1 & H2 & H3);
      [| done].
    unfold no_spawn, boot; simpl. done.
  - intros Hm Hk ws c0 Hi. rewrite initial_boot in Hi. simplify_eq.
    pose proof (runs_without_workers m
                  (match k with Some n => n | None => 0 end) false
                  ws [] [] Hm) as H.
    rewrite app_nil_r in H. unfold boot, pool_of, set_q. simpl.
    apply H. destruct k; [done | lia].
  - intros Hm n -> Hn ws c0 sched c tr Hi He. rewrite initial_boot in Hi.
    simplify_eq.
    destruct (only_runs_exec (length ws) _ _ _ _ He) as [Hq Hcount].
    { unfold no_spawn, boot; simpl. split_and!; try done; try (by left).
      - clear. induction ws as [|w ws IH]; simpl; done.
      - by rewrite length_fmap. }
    assert (Z.of_nat (length (queue (q (pool c)))) <= n) as Hcap.
    { pose proof (maxsize_exec _ _ _ _ He) as Hmax. simpl in Hmax.
      assert (0 < maxsize (q (pool c)) ->
              Z.of_nat (length (queue (q (pool c)))) <= maxsize (q (pool c)))
        as Hc.
      { eapply (exec_invariant
                  (fun c => 0 < maxsize (q (pool c)) ->
                     Z.of_nat (length (queue (q (pool c)))) <=
                     maxsize (q (pool c)))); [| | exact He].
        - intros a d d' evs Hd Hs. by eapply capacity_step.
        - simpl. lia. }
      rewrite Hmax in Hc. by apply Hc. }
    rewrite Hq in Hcap. split_and!; [done | done |].
    intros Hlt [Hr Hp]. rewrite Hr, Hp in Hcount. simpl in Hcount. lia.
Qed.

(** Two instances with [max_num = 0].  Unbounded queue: two [run] calls
    return with both tasks queued, where they stay for want of a worker.
    Queue bounded to one item: the first task is queued, and the client is
    not through its two calls. *)
Lemma init_never_fails_witness :
  solo 10 (boot (pool_of 0 0) [Run (action 1); Run (action 2)]) =
    Some (mkConfig (mkPool (mkQueue 0 [TaskItem (action 1); TaskItem (action 2)])
                           0 false false [] [])
                   [] Ready [],
          [EvPut (TaskItem (action 1)); EvPut (TaskItem (action 2))]) /\
  ~ (ctrl (mkConfig (mkPool (mkQueue 1 [TaskItem (action 1)]) 0 false false
                            [] [])
                    [] (RunPut (action 2)) []) = Ready /\
     prog (mkConfig (mkPool (mkQueue 1 [TaskItem (action 1)]) 0 false false
                            [] [])
                    [] (RunPut (action 2)) []) = []).
Proof.
  split.
  - exact (proj1 (proj2 (proj2 (init_never_fails 0 None))) ltac:(lia) I
             [action 1; action 2] _ eq_refl).
  - assert (exec (replicate 9 Main)
              (boot (pool_of 0 1) [Run (action 1); Run (action 2)]) =
            Some (mkConfig (mkPool (mkQueue 1 [TaskItem (action 1)]) 0 false
                                   false [] [])
                           [] (RunPut (action 2)) [],
                  [EvPut (TaskItem (action 1))])) as He
      by (vm_compute; reflexivity).
    refine (proj2 (proj2
              (proj2 (proj2 (proj2 (init_never_fails 0 (Some 1))))
                 _ 1 eq_refl _ [action 1; action 2] _ _ _ _ eq_refl He)) _);
      simpl; lia.
Defined.

(** * Tasks, then [StopEvent]s *)

Section Submitting.


End Submitting.

Section Served.














End Served.

Section Shaped.







End Shaped.



